(** * PSD ingestion and time-varying PSD selection (pycbc/psd/read.py)

    A shallow embedding of [from_numpy_arrays], of the two readers [from_txt]
    and [from_xml] that call it, and of the class
    [PrecomputedTimeVaryingPSD], together with the properties of the
    natural-language specification that concern them and further properties
    read off the code.

    Numbers.  Frequencies, times and resolutions are Python/numpy floats in
    the source.  They are embedded as rationals ([Q]) with exact arithmetic:
    comparisons are decidable and every definition that only moves, compares
    or divides them can be evaluated.  The values handled in the logarithmic
    domain ([numpy.log], [numpy.exp], the interpolation table) are embedded as
    extended reals ([xreal]): a real number, one of the two infinities, or
    not-a-number.  Rounding is not part of the embedding. *)

From Stdlib Require Import List Sorted ZArith QArith Qround Qabs Qminmax Bool Lia.
From Stdlib Require Import Reals Lra Qreals.
From Stdlib Require String Permutation.
Import ListNotations.

Set Implicit Arguments.

(** ** Python and numpy primitives *)

Module Py.

(** The messages of the [ValueError]s that the modelled code and its
    libraries raise. *)
Inductive message : Type :=
| LowestFrequencyAboveCutoff (cutoff : Q)      (* read.py, line 54 *)
| SegmentOutsideStore (begin_ end_ : Q)        (* read.py, lines 224-226 *)
| NoIntersectingPSD                            (* read.py, line 246 *)
| KthOutOfBounds (kth n : nat)                 (* numpy.argpartition *)
| EmptyReduction                               (* numpy min/max of an empty array *)
| NegativeDimensions                           (* numpy.zeros *)
| CannotBroadcast (src dst : nat)              (* numpy slice assignment *)
| InterpolationTable (nx ny : nat)             (* scipy.interpolate.interp1d *)
| DisjointSegments.                            (* ligo.segments, segment.__and__ *)

Inductive exn : Type :=
| ValueError (m : message)
| IndexError
| KeyError (index : nat)
| ZeroDivisionError.

Inductive result (A : Type) : Type :=
| Ok (a : A)
| Err (e : exn).
Arguments Ok {A} a.
Arguments Err {A} e.

Definition bind {A B : Type} (m : result A) (k : A -> result B) : result B :=
  match m with
  | Ok a => k a
  | Err e => Err e
  end.

Notation "x <- m ;; k" := (bind m (fun x => k))
  (at level 61, m at next level, right associativity).
Notation "' p <- m ;; k" := (bind m (fun x => match x with p => k end))
  (at level 61, p pattern, m at next level, right associativity).

(** [a < b] on floats. *)
Definition Qltb (a b : Q) : bool := negb (Qle_bool b a).

(** [int(x)] of a float: truncation towards zero. *)
Definition py_int (x : Q) : Z := Z.quot (Qnum x) (Zpos (Qden x)).

(** [a / b] on Python floats: a zero divisor raises. *)
Definition py_div (a b : Q) : result Q :=
  if Qeq_bool b 0 then Err ZeroDivisionError else Ok (a / b).

(** [l[i]] with Python's negative indices. *)
Definition py_index {A : Type} (l : list A) (i : Z) : result A :=
  let n := Z.of_nat (length l) in
  let j := (if i <? 0 then i + n else i)%Z in
  if ((j <? 0) || (n <=? j))%Z then Err IndexError
  else match nth_error l (Z.to_nat j) with
       | Some a => Ok a
       | None => Err IndexError
       end.

(** The position a slice bound [i] denotes in a sequence of length [n]:
    a negative bound counts from the end, and the position is clamped to
    the sequence. *)
Definition slice_pos (n : nat) (i : Z) : nat :=
  if (i <? 0)%Z then Z.to_nat (Z.max 0 (i + Z.of_nat n))
  else Nat.min (Z.to_nat i) n.

(** The first position and the length of the slice [lo:hi] of a sequence
    of length [n]; [hi = None] is the open slice [lo:]. *)
Definition slice_bounds (n : nat) (lo : Z) (hi : option Z) : nat * nat :=
  let a := slice_pos n lo in
  let b := match hi with Some h => slice_pos n h | None => n end in
  (a, (b - a)%nat).

(** [l[lo:hi]] *)
Definition py_slice {A : Type} (l : list A) (lo : Z) (hi : option Z) : list A :=
  let '(a, room) := slice_bounds (length l) lo hi in
  firstn room (skipn a l).

(** [l[lo:hi] = v] for a scalar [v]. *)
Definition np_fill {A : Type} (l : list A) (lo : Z) (hi : option Z) (v : A)
  : list A :=
  let '(a, room) := slice_bounds (length l) lo hi in
  firstn a l ++ repeat v room ++ skipn (a + room) l.

(** [l[lo:hi] = src] for an array [src]: the slice keeps its length; a
    source of that length is copied, a source of length one is broadcast,
    anything else is refused. *)
Definition np_assign {A : Type} (l : list A) (lo : Z) (hi : option Z)
           (src : list A) : result (list A) :=
  let '(a, room) := slice_bounds (length l) lo hi in
  if Nat.eqb (length src) room
  then Ok (firstn a l ++ src ++ skipn (a + room) l)
  else match src with
       | [v] => Ok (np_fill l lo hi v)
       | _ => Err (ValueError (CannotBroadcast (length src) room))
       end.

(** [numpy.zeros(n)] *)
Definition np_zeros {A : Type} (zero : A) (n : Z) : result (list A) :=
  if (n <? 0)%Z then Err (ValueError NegativeDimensions)
  else Ok (repeat zero (Z.to_nat n)).

(** [numpy.arange(lo, hi)] on integers. *)
Definition np_arange (lo hi : Z) : list Z :=
  map (fun i => (lo + Z.of_nat i)%Z) (seq 0 (Z.to_nat (hi - lo))).

(** Binary search of [numpy.searchsorted(a, v)] (side [left]): the loop
    keeps [lo <= hi] and halves [hi - lo]; [fuel] bounds its iterations. *)
Fixpoint bisect_left {A : Type} (lt : A -> A -> bool) (a : list A) (v : A)
         (fuel lo hi : nat) : nat :=
  match fuel with
  | O => lo
  | S fuel' =>
      if (lo <? hi)%nat then
        let mid := (lo + (hi - lo) / 2)%nat in
        match nth_error a mid with
        | Some x =>
            if lt x v then bisect_left lt a v fuel' (S mid) hi
            else bisect_left lt a v fuel' lo mid
        | None => lo
        end
      else lo
  end.

(** The search over the whole of [a], with fuel for every halving. *)
Definition searchsorted_by {A : Type} (lt : A -> A -> bool) (a : list A) (v : A) : nat :=
  bisect_left lt a v (S (length a)) 0 (length a).

(** [numpy.searchsorted(a, v)] on floats. *)
Definition searchsorted (a : list Q) (v : Q) : nat := searchsorted_by Qltb a v.

End Py.

(** ** Floats of the logarithmic domain *)

Module XReal.

(** A float without rounding: a real number, an infinity or not-a-number. *)
Inductive xreal : Type :=
| XNaN
| XNInf
| XPInf
| XFin (r : R).

Definition Rltb (a b : R) : bool := if Rlt_dec a b then true else false.
Definition Reqb (a b : R) : bool := if Req_dec_T a b then true else false.

Definition of_Q (q : Q) : xreal := XFin (Q2R q).

Definition is_nan (a : xreal) : bool :=
  match a with XNaN => true | _ => false end.

(** [a < b]; every comparison with not-a-number is false. *)
Definition xlt (a b : xreal) : bool :=
  match a, b with
  | XNaN, _ | _, XNaN => false
  | XNInf, XNInf => false
  | XNInf, _ => true
  | _, XNInf => false
  | XPInf, _ => false
  | XFin _, XPInf => true
  | XFin x, XFin y => Rltb x y
  end.

(** [a == b] *)
Definition xeq (a b : xreal) : bool :=
  match a, b with
  | XNInf, XNInf | XPInf, XPInf => true
  | XFin x, XFin y => Reqb x y
  | _, _ => false
  end.

Definition xopp (a : xreal) : xreal :=
  match a with
  | XNaN => XNaN
  | XNInf => XPInf
  | XPInf => XNInf
  | XFin x => XFin (- x)
  end.

Definition xadd (a b : xreal) : xreal :=
  match a, b with
  | XNaN, _ | _, XNaN => XNaN
  | XPInf, XNInf | XNInf, XPInf => XNaN
  | XPInf, _ | _, XPInf => XPInf
  | XNInf, _ | _, XNInf => XNInf
  | XFin x, XFin y => XFin (x + y)
  end.

Definition xsub (a b : xreal) : xreal := xadd a (xopp b).

(** The infinity of the sign of [x * s], for [s] positive or negative;
    a zero [x] gives not-a-number. *)
Definition signed_inf (positive : bool) (x : R) : xreal :=
  if Reqb x 0 then XNaN
  else if Bool.eqb (Rltb 0 x) positive then XPInf else XNInf.

Definition xmul (a b : xreal) : xreal :=
  match a, b with
  | XNaN, _ | _, XNaN => XNaN
  | XPInf, XPInf | XNInf, XNInf => XPInf
  | XPInf, XNInf | XNInf, XPInf => XNInf
  | XPInf, XFin y => signed_inf true y
  | XNInf, XFin y => signed_inf false y
  | XFin x, XPInf => signed_inf true x
  | XFin x, XNInf => signed_inf false x
  | XFin x, XFin y => XFin (x * y)
  end.

(** Division; the zero of a denominator is taken as positive, which is
    the zero that the difference of two sorted abscissas gives. *)
Definition xdiv (a b : xreal) : xreal :=
  match a, b with
  | XNaN, _ | _, XNaN => XNaN
  | XFin x, XFin y => if Reqb y 0 then signed_inf true x else XFin (x / y)
  | XFin _, _ => XFin 0
  | XPInf, XFin y => if Rltb y 0 then XNInf else XPInf
  | XNInf, XFin y => if Rltb y 0 then XPInf else XNInf
  | _, _ => XNaN
  end.

(** [numpy.log] *)
Definition np_log (a : xreal) : xreal :=
  match a with
  | XFin x => if Rltb 0 x then XFin (ln x)
              else if Reqb x 0 then XNInf else XNaN
  | XPInf => XPInf
  | _ => XNaN
  end.

(** [numpy.exp] *)
Definition np_exp (a : xreal) : xreal :=
  match a with
  | XNaN => XNaN
  | XNInf => XFin 0
  | XPInf => XPInf
  | XFin x => XFin (exp x)
  end.

(** The order numpy sorts and searches with: not-a-number is last. *)
Definition sort_lt (a b : xreal) : bool := xlt a b || (is_nan b && negb (is_nan a)).

End XReal.

(** ** numpy and scipy routines on arrays *)

Module Np.
Import Py XReal.

Section Sorting.
Context {A : Type} (lt : A -> A -> bool).

(** Stable insertion of the key [k] of position [i]. *)
Fixpoint insert_key (i : nat) (k : A) (l : list (nat * A)) : list (nat * A) :=
  match l with
  | [] => [(i, k)]
  | (j, kj) :: t =>
      if lt kj k then (j, kj) :: insert_key i k t else (i, k) :: l
  end.

Fixpoint sort_keys (l : list (nat * A)) : list (nat * A) :=
  match l with
  | [] => []
  | (i, k) :: t => insert_key i k (sort_keys t)
  end.

(** [numpy.argsort(a, kind="mergesort")]: the positions of [a] in
    increasing order of their elements, equal elements in their order
    of appearance. *)
Definition argsort (a : list A) : list nat :=
  map fst (sort_keys (combine (seq 0 (length a)) a)).
End Sorting.

(** [numpy.argpartition(a, kth)].  numpy promises that the position [kth]
    of the result holds the element a full sort would put there, with no
    larger element before it and no smaller one after it; the order inside
    the two parts is left open, and so is the choice among elements equal
    to the one at [kth].  A full stable sort is one such result and stands
    for it here; no property below depends on the order it gives to the
    first [kth] positions, nor on the choice it makes among equal
    elements. *)
Definition argpartition (a : list Q) (kth : nat) : result (list nat) :=
  if (length a <=? kth)%nat
  then Err (ValueError (KthOutOfBounds kth (length a)))
  else Ok (argsort Qltb a).

(** [a.min()] and [a.max()] *)
Definition np_min (a : list Q) : result Q :=
  match a with
  | [] => Err (ValueError EmptyReduction)
  | x :: t => Ok (fold_left Qmin t x)
  end.

Definition np_max (a : list Q) : result Q :=
  match a with
  | [] => Err (ValueError EmptyReduction)
  | x :: t => Ok (fold_left Qmax t x)
  end.

(** [a <= b] *)
Definition xle (a b : xreal) : bool := xlt a b || xeq a b.

(** [l[i]] for a position inside [l]. *)
Definition at_ (l : list xreal) (i : nat) : xreal := nth i l XNaN.

(** [numpy.interp(x, xp, fp)] at one abscissa, for a table [xp], [fp] of
    the same positive length: the value of the first (last) node left
    (right) of the table, the ordinate of a node at that node, and the
    chord between the two neighbouring nodes elsewhere.  When the chord
    formula gives not-a-number from the left node it is tried from the
    right node. *)
Definition np_interp (xp fp : list xreal) (x : xreal) : xreal :=
  let n := length xp in
  let lval := at_ fp 0 in
  let rval := at_ fp (n - 1) in
  if (n =? 1)%nat then
    if xlt x (at_ xp 0) then lval
    else if xlt (at_ xp 0) x then rval else at_ fp 0
  else if is_nan x then x
  else if xlt (at_ xp (n - 1)) x then rval
  else if xlt x (at_ xp 0) then lval
  else
    let j := (searchsorted_by xle xp x - 1)%nat in
    if (j =? n - 1)%nat then at_ fp j
    else if xeq (at_ xp j) x then at_ fp j
    else
      let slope := xdiv (xsub (at_ fp (S j)) (at_ fp j))
                        (xsub (at_ xp (S j)) (at_ xp j)) in
      let r := xadd (xmul slope (xsub x (at_ xp j))) (at_ fp j) in
      if is_nan r then
        let r' := xadd (xmul slope (xsub x (at_ xp (S j)))) (at_ fp (S j)) in
        if is_nan r' && xeq (at_ fp j) (at_ fp (S j)) then at_ fp j else r'
      else r.

(** [scipy.interpolate.interp1d(x, y, fill_value=(below, above),
    bounds_error=False)], of the default linear kind, as a function of the
    new abscissa: the table is sorted by [x], a float table is evaluated
    with [numpy.interp], and abscissas outside the table get the fill
    values.  A table whose columns differ in length, or an empty one, is
    refused. *)
Definition interp1d (x y : list xreal) (below above : xreal)
  : result (xreal -> xreal) :=
  if negb (length x =? length y)%nat || (length x =? 0)%nat
  then Err (ValueError (InterpolationTable (length x) (length y)))
  else
    let ind := argsort sort_lt x in
    let xs := map (at_ x) ind in
    let ys := map (at_ y) ind in
    Ok (fun x_new =>
          if xlt (at_ xs (length xs - 1)) x_new then above
          else if xlt x_new (at_ xs 0) then below
          else np_interp xs ys x_new).

End Np.

(** ** The resampler: [from_numpy_arrays] *)

Module Read.
Import Py XReal Np.

(** Modelled from the spec: the type [FrequencySeries] of [pycbc.types],
    whose code is not part of the sources at hand: an ordered sequence of
    values indexed by frequency bin, with a fixed spacing [delta_f];
    bin [k] stands for the frequency [k * delta_f].  Its length, slices and
    item assignments are those of the numpy array it wraps. *)
Record FrequencySeries (A : Type) : Type := mkFrequencySeries {
  data : list A;
  delta_f : Q
}.

(** The records handed to [logging.warning]. *)
Inductive log_record : Type :=
| SamplesExceedAvailable (requested available : Q).   (* lines 71-75 *)

(** Lines 53-68: the guard on the lowest frequency, [kmin], and the
    trimming of both columns at [data_start].  Returns [kmin] and the two
    retained columns. *)
Definition trim {A : Type} (freq_data : list Q) (noise_data : list A)
           (delta_f low_freq_cutoff : Q) : result (Z * list Q * list A) :=
  f0 <- py_index freq_data 0 ;;
  if Qltb low_freq_cutoff f0
  then Err (ValueError (LowestFrequencyAboveCutoff low_freq_cutoff))
  else
    q <- py_div low_freq_cutoff delta_f ;;
    let kmin := py_int q in
    let flow := inject_Z kmin * delta_f in
    f0' <- py_index freq_data 0 ;;
    let data_start :=
      if Qeq_bool f0' low_freq_cutoff then 0%Z
      else (Z.of_nat (searchsorted freq_data flow) - 1)%Z in
    f1 <- py_index freq_data (data_start + 1) ;;
    let data_start :=
      if Qeq_bool f1 low_freq_cutoff then (data_start + 1)%Z else data_start in
    Ok (kmin, py_slice freq_data data_start None,
              py_slice noise_data data_start None).

(** Lines 70-76: the number of samples, reduced with a warning when the
    requested highest frequency is above the last retained one.  The
    quotient and the sum of line 76 are those of exact arithmetic, where
    [int(q + 1)] is [floor(q) + 1]; the source rounds both to doubles, and
    the sum can round up to the next integer. *)
Definition adjust_length (freq_data : list Q) (length : Z) (delta_f : Q)
  : result (list log_record * Z) :=
  last <- py_index freq_data (-1) ;;
  let requested := inject_Z (length - 1) * delta_f in
  if Qltb last requested then
    q <- py_div last delta_f ;;
    Ok ([SamplesExceedAvailable requested last], py_int (q + 1))
  else Ok ([], length).

(** Lines 78-88: interpolation of the logarithm of the noise against the
    logarithm of the frequency, evaluated on the bins [kmin .. length-1];
    the bins below [kmin] stay zero. *)
Definition interpolate_bins (freq_data : list Q) (noise_data : list xreal)
           (kmin length : Z) (delta_f : Q) : result (FrequencySeries xreal) :=
  let flog := map (fun f => np_log (of_Q f)) freq_data in
  let slog := map np_log noise_data in
  s_first <- py_index slog 0 ;;
  s_last <- py_index slog (-1) ;;
  psd_interp <- interp1d flog slog s_first s_last ;;
  psd <- np_zeros (XFin 0) length ;;
  let vals := map (fun k => np_log (of_Q (inject_Z k * delta_f)))
                  (np_arange kmin length) in
  psd <- np_assign psd kmin None (map np_exp (map psd_interp vals)) ;;
  Ok (mkFrequencySeries psd delta_f).

(** [from_numpy_arrays(freq_data, noise_data, length, delta_f,
    low_freq_cutoff)]: the warnings logged and the series returned or the
    exception raised. *)
Definition from_numpy_arrays (freq_data : list Q) (noise_data : list xreal)
           (length : Z) (delta_f low_freq_cutoff : Q)
  : list log_record * result (FrequencySeries xreal) :=
  match trim freq_data noise_data delta_f low_freq_cutoff with
  | Err e => ([], Err e)
  | Ok (kmin, freq_data', noise_data') =>
      match adjust_length freq_data' length delta_f with
      | Err e => ([], Err e)
      | Ok (log, length') =>
          (log, interpolate_bins freq_data' noise_data' kmin length' delta_f)
      end
  end.

End Read.

(** ** PSDs read from files: [from_txt] and [from_xml] *)

Module Files.
Import Py XReal Np Read.

(** The exceptions of the two readers: those of their own lines, those of
    the libraries they read the file with, and those raised further down,
    by numpy indexing and by [from_numpy_arrays]. *)
Inductive file_exn : Type :=
| InvalidData (filename : String.string)      (* ValueError, read.py, line 128 *)
| NotExactlyOnePSD                            (* ValueError, read.py, lines 186-188 *)
| UnknownIfo (ifo_string : String.string)     (* KeyError, read.py, lines 182, 184 *)
| WrongNumberOfColumns                        (* ValueError of numpy.loadtxt *)
| Raised (e : exn).

Inductive outcome (A : Type) : Type :=
| Returned (a : A)
| Raises (e : file_exn).
Arguments Returned {A} a.
Arguments Raises {A} e.

Definition of_result {A : Type} (r : result A) : outcome A :=
  match r with
  | Ok a => Returned a
  | Err e => Raises (Raised e)
  end.

(** A number as it is read from a text file: a float that is finite, an
    infinity or not-a-number. *)
Inductive float64 : Type :=
| FNaN
| FNInf
| FPInf
| FFin (q : Q).

(** [c < 0] *)
Definition negative (c : float64) : bool :=
  match c with
  | FFin q => Qltb q 0
  | FNInf => true
  | _ => false
  end.

(** [numpy.isfinite(c)] *)
Definition isfinite (c : float64) : bool :=
  match c with
  | FFin _ => true
  | _ => false
  end.

(** [c ** 2] *)
Definition square (c : float64) : float64 :=
  match c with
  | FNaN => FNaN
  | FNInf | FPInf => FPInf
  | FFin q => FFin (q * q)
  end.

(** The float as [from_numpy_arrays] takes a noise value. *)
Definition to_xreal (c : float64) : xreal :=
  match c with
  | FNaN => XNaN
  | FNInf => XNInf
  | FPInf => XPInf
  | FFin q => of_Q q
  end.

(** The float as [from_numpy_arrays] takes a frequency.  Frequencies are
    finite where [from_txt] hands them over: the check of lines 126-128 has
    passed. *)
Definition as_Q (c : float64) : Q :=
  match c with
  | FFin q => q
  | _ => 0
  end.

(** A numpy array of floats, of at most two dimensions; the rows of a
    two-dimensional array are equally long. *)
Inductive ndarray : Type :=
| Array0 (c : float64)
| Array1 (l : list float64)
| Array2 (rows : list (list float64)).

(** A text file: its path, and the numbers on its lines that are neither
    empty nor comments. *)
Record txt_file : Type := {
  path : String.string;
  lines : list (list float64)
}.

(** [numpy.loadtxt(filename)], with its default arguments: every line has
    to hold as many numbers as the first one; the axes of length one are
    squeezed, so that a single line or a single column gives a
    one-dimensional array and a single number a zero-dimensional one; a
    file without data gives an empty one-dimensional array. *)
Definition np_loadtxt (filename : txt_file) : outcome ndarray :=
  match lines filename with
  | [] => Returned (Array1 [])
  | first :: rest =>
      if forallb (fun l => (List.length l =? List.length first)%nat) rest then
        match first, rest with
        | [c], [] => Returned (Array0 c)
        | _, [] => Returned (Array1 first)
        | [_], _ => Returned (Array1 (concat (first :: rest)))
        | _, _ => Returned (Array2 (first :: rest))
        end
      else Raises WrongNumberOfColumns
  end.

(** [p(a).any()] for an elementwise test [p]. *)
Definition np_any (p : float64 -> bool) (a : ndarray) : bool :=
  match a with
  | Array0 c => p c
  | Array1 l => existsb p l
  | Array2 rows => existsb (existsb p) rows
  end.

(** The results of [f] on the elements of [l], up to the first error. *)
Fixpoint collect {A B : Type} (f : A -> result B) (l : list A) : result (list B) :=
  match l with
  | [] => Ok []
  | a :: t => b <- f a ;; bs <- collect f t ;; Ok (b :: bs)
  end.

(** [a[:, j]]: an array of fewer than two dimensions has too many
    indices. *)
Definition column (a : ndarray) (j : Z) : result (list float64) :=
  match a with
  | Array2 rows => collect (fun r => py_index r j) rows
  | _ => Err IndexError
  end.

(** [from_txt(filename, length, delta_f, low_freq_cutoff, is_asd_file)]
    (lines 91-136) *)
Definition from_txt (filename : txt_file) (length : Z)
           (delta_f low_freq_cutoff : Q) (is_asd_file : bool)
  : list log_record * outcome (FrequencySeries xreal) :=
  match np_loadtxt filename with
  | Raises e => ([], Raises e)
  | Returned file_data =>
      if np_any negative file_data ||
         np_any (fun c => negb (isfinite c)) file_data
      then ([], Raises (InvalidData (path filename)))
      else
        match column file_data 0 with
        | Err e => ([], Raises (Raised e))
        | Ok freq_data =>
            match column file_data 1 with
            | Err e => ([], Raises (Raised e))
            | Ok noise_data =>
                let noise_data :=
                  if is_asd_file then map square noise_data else noise_data in
                let r := from_numpy_arrays (map as_Q freq_data)
                                           (map to_xreal noise_data)
                                           length delta_f low_freq_cutoff in
                (fst r, of_result (snd r))
            end
        end
  end.

(** A [REAL8FrequencySeries] of lal, as far as [from_xml] reads it: the
    spacing [deltaF] and the samples [data.data]. *)
Record REAL8FrequencySeries : Type := {
  deltaF : Q;
  data_data : list xreal
}.

(** A Python dictionary with strings for keys: one pair for every key. *)
Definition dict (V : Type) : Type := list (String.string * V).

Definition dict_keys {V : Type} (d : dict V) : list String.string := map fst d.

(** [d[k]] *)
Definition dict_item {V : Type} (d : dict V) (k : String.string) : outcome V :=
  match find (fun kv => String.eqb (fst kv) k) d with
  | Some kv => Returned (snd kv)
  | None => Raises (UnknownIfo k)
  end.

(** An XML file of PSDs: the dictionary that [lal.series.read_psd_xmldoc]
    makes of its document, for a root name. *)
Record xml_file : Type := {
  read_psd_xmldoc : String.string -> dict REAL8FrequencySeries
}.

(** Lines 181-188: the PSD of the dictionary that is asked for. *)
Definition select_psd (psd_dict : dict REAL8FrequencySeries)
           (ifo_string : option String.string) : outcome REAL8FrequencySeries :=
  match ifo_string with
  | Some ifo => dict_item psd_dict ifo
  | None =>
      if (List.length (dict_keys psd_dict) =? 1)%nat then
        match py_index (dict_keys psd_dict) 0 with
        | Ok k => dict_item psd_dict k
        | Err e => Raises (Raised e)
        end
      else Raises NotExactlyOnePSD
  end.

(** Line 191: [numpy.arange(n) * deltaF] *)
Definition xml_frequencies (n : nat) (deltaF : Q) : list Q :=
  map (fun i => inject_Z i * deltaF) (np_arange 0 (Z.of_nat n)).

(** [from_xml(filename, length, delta_f, low_freq_cutoff, ifo_string,
    root_name)] (lines 139-194) *)
Definition from_xml (filename : xml_file) (length : Z)
           (delta_f low_freq_cutoff : Q) (ifo_string : option String.string)
           (root_name : String.string)
  : list log_record * outcome (FrequencySeries xreal) :=
  let psd_dict := read_psd_xmldoc filename root_name in
  match select_psd psd_dict ifo_string with
  | Raises e => ([], Raises e)
  | Returned psd_freq_series =>
      let noise_data := data_data psd_freq_series in
      let freq_data :=
        xml_frequencies (List.length noise_data) (deltaF psd_freq_series) in
      let r := from_numpy_arrays freq_data noise_data
                                 length delta_f low_freq_cutoff in
      (fst r, of_result (snd r))
  end.

End Files.

(** ** Time segments ([ligo.segments]) *)

Module Segments.
Import Py.

(** A segment is a pair of bounds. *)
Definition segment : Type := (Q * Q)%type.

(** [segments.segment(a, b)]: the bounds are put in order. *)
Definition mk_segment (a b : Q) : segment :=
  if Qle_bool a b then (a, b) else (b, a).

(** [abs(s)] *)
Definition seg_abs (s : segment) : Q := snd s - fst s.

(** [self.intersects(other)] *)
Definition intersects (self other : segment) : bool :=
  Qltb (fst other) (snd self) && Qltb (fst self) (snd other).

(** [self & other] *)
Definition seg_and (self other : segment) : result segment :=
  if Qle_bool (snd self) (fst other) || Qle_bool (snd other) (fst self)
  then Err (ValueError DisjointSegments)
  else Ok (Qmax (fst self) (fst other), Qmin (snd self) (snd other)).

End Segments.

(** ** The selector: [PrecomputedTimeVaryingPSD] *)

Module TimeVarying.
Import Py Np Segments.
Import Read(FrequencySeries, mkFrequencySeries, data).

Section Selector.
(** The sample type of the stored series, with the values that
    [zeros(n, dtype)] and [numpy.inf] have in it. *)
Context {A : Type} (zero inf : A).

(** The values of [opt.invpsd_trunc_method]. *)
Context {trunc_method : Type}.

(** The two collaborators of [pycbc.psd], which may raise. *)
Context (interpolate : FrequencySeries A -> Q -> result (FrequencySeries A)).
Context (inverse_spectrum_truncation :
           FrequencySeries A -> Z -> option Q -> option trunc_method ->
           result (FrequencySeries A)).

(** The content of the HDF5 file [opt.precomputed_psd_file], for its
    first detector: the datasets [start_time] and [end_time], the
    attribute [low_frequency_cutoff] and the groups [psds/<index>]. *)
Record psd_file : Type := {
  start_time : list Q;
  end_time : list Q;
  low_frequency_cutoff_attr : Q;
  psds : nat -> option (FrequencySeries A)
}.

(** The options read by the class. *)
Record options : Type := {
  precomputed_psd_file : psd_file;
  low_frequency_cutoff : option Q;
  opt_psd_inverse_length : option Q;
  opt_invpsd_trunc_method : option trunc_method
}.

Record PrecomputedTimeVaryingPSD : Type := {
  opt : options;
  file_name : psd_file;
  f_low : option Q;
  length : option Z;
  delta_f : Q;
  sample_rate : Q;
  psd_inverse_length : option Q;
  invpsd_trunc_method : option trunc_method;
  start_times : list Q;
  end_times : list Q;
  file_f_low : Q;
  begin_ : Q;
  end_ : Q
}.

(** [__init__] (lines 198-216) *)
Definition init (opt : options) (length : option Z) (delta_f sample_rate : Q)
  : result PrecomputedTimeVaryingPSD :=
  let f := precomputed_psd_file opt in
  b <- np_min (start_time f) ;;
  e <- np_max (end_time f) ;;
  Ok {| opt := opt;
        file_name := f;
        f_low := low_frequency_cutoff opt;
        length := length;
        delta_f := delta_f;
        sample_rate := sample_rate;
        psd_inverse_length := opt_psd_inverse_length opt;
        invpsd_trunc_method := opt_invpsd_trunc_method opt;
        start_times := start_time f;
        end_times := end_time f;
        file_f_low := low_frequency_cutoff_attr f;
        begin_ := b;
        end_ := e |}.

(** Modelled from the spec: [load_frequencyseries] of [pycbc.types],
    whose code is not part of the sources at hand: the payload stored
    for the index, read anew at every call. *)
Definition load_frequencyseries (f : psd_file) (index : nat)
  : result (FrequencySeries A) :=
  match psds f index with
  | Some psd => Ok psd
  | None => Err (KeyError index)
  end.

(** Lines 259-262: the stored series, resampled when a resolution other
    than its own is asked for. *)
Definition load_at_resolution (self : PrecomputedTimeVaryingPSD) (index : nat)
           (delta_f : option Q) : result (FrequencySeries A) :=
  psd <- load_frequencyseries (file_name self) index ;;
  match delta_f with
  | Some d =>
      if negb (Qeq_bool (Read.delta_f psd) d)
      then interpolate psd d else Ok psd
  | None => Ok psd
  end.

(** Lines 263-271: the series brought to the configured length. *)
Definition reconcile_length (self : PrecomputedTimeVaryingPSD)
           (psd : FrequencySeries A) : result (FrequencySeries A) :=
  match length self with
  | Some len =>
      if negb (len =? Z.of_nat (List.length (data psd)))%Z then
        z <- np_zeros zero len ;;
        let psd2 := mkFrequencySeries z (Read.delta_f psd) in
        if (Z.of_nat (List.length (data psd)) <? len)%Z then
          let psd2 := mkFrequencySeries (np_fill (data psd2) 0 None inf)
                                        (Read.delta_f psd2) in
          d <- np_assign (data psd2) 0
                 (Some (Z.of_nat (List.length (data psd)))) (data psd) ;;
          Ok (mkFrequencySeries d (Read.delta_f psd2))
        else
          d <- np_assign (data psd2) 0 None (py_slice (data psd) 0 (Some len)) ;;
          Ok (mkFrequencySeries d (Read.delta_f psd2))
      else Ok psd
  | None => Ok psd
  end.

(** Lines 272-275: the bins below the cutoff of the file are masked. *)
Definition mask_low_frequencies (self : PrecomputedTimeVaryingPSD)
           (psd : FrequencySeries A) : result (FrequencySeries A) :=
  match f_low self with
  | Some fl =>
      if Qltb fl (file_f_low self) then
        q <- py_div (file_f_low self) (Read.delta_f psd) ;;
        let k := py_int q in
        Ok (mkFrequencySeries (np_fill (data psd) 0 (Some k) inf)
                              (Read.delta_f psd))
      else Ok psd
  | None => Ok psd
  end.

(** [get_psd(index, delta_f=None)] (lines 258-277) *)
Definition get_psd (self : PrecomputedTimeVaryingPSD) (index : nat)
           (delta_f : option Q) : result (FrequencySeries A) :=
  psd <- load_at_resolution self index delta_f ;;
  psd <- reconcile_length self psd ;;
  mask_low_frequencies self psd.

(** The truth value of [self.psd_inverse_length]. *)
Definition truthy (x : option Q) : bool :=
  match x with
  | Some v => negb (Qeq_bool v 0)
  | None => false
  end.

(** Lines 228-229: the positions of the two candidates. *)
Definition candidates (self : PrecomputedTimeVaryingPSD) (inp_seg : segment)
  : result (list nat) :=
  part <- argpartition
            (map (fun t => Qabs (t - fst inp_seg)) (start_times self)) 2 ;;
  Ok (py_slice part 0 (Some 2%Z)).

(** Lines 230-247: the segments of the two candidates and the choice
    between them, by overlap with [inp_seg]. *)
Definition best_of (self : PrecomputedTimeVaryingPSD) (inp_seg : segment)
           (delta_f : option Q) (sidx : list nat)
  : result (FrequencySeries A) :=
  i0 <- py_index sidx 0 ;;
  s0 <- py_index (start_times self) (Z.of_nat i0) ;;
  e0 <- py_index (end_times self) (Z.of_nat i0) ;;
  let nearest := mk_segment s0 e0 in
  i1 <- py_index sidx 1 ;;
  s1 <- py_index (start_times self) (Z.of_nat i1) ;;
  e1 <- py_index (end_times self) (Z.of_nat i1) ;;
  let next_nearest := mk_segment s1 e1 in
  '(psd_overlap, best_psd) <-
    (if intersects inp_seg nearest then
       ov <- seg_and nearest inp_seg ;;
       psd <- get_psd self i0 delta_f ;;
       Ok (seg_abs ov, Some psd)
     else Ok (0, None)) ;;
  '(psd_overlap, best_psd) <-
    (if intersects inp_seg next_nearest then
       ov <- seg_and next_nearest inp_seg ;;
       if Qltb psd_overlap (seg_abs ov) then
         ov' <- seg_and next_nearest inp_seg ;;
         psd <- get_psd self i1 delta_f ;;
         Ok (seg_abs ov', Some psd)
       else Ok (psd_overlap, best_psd)
     else Ok (psd_overlap, best_psd)) ;;
  match best_psd with
  | None => Err (ValueError NoIntersectingPSD)
  | Some psd => Ok psd
  end.

(** Lines 249-254: the optional truncation of the inverse spectrum. *)
Definition truncate_inverse (self : PrecomputedTimeVaryingPSD)
           (best_psd : FrequencySeries A) : result (FrequencySeries A) :=
  match psd_inverse_length self with
  | Some len =>
      if truthy (psd_inverse_length self) then
        inverse_spectrum_truncation best_psd
          (py_int (len * sample_rate self)) (f_low self)
          (invpsd_trunc_method self)
      else Ok best_psd
  | None => Ok best_psd
  end.

(** [assosiate_psd_to_inspiral_segment(inp_seg, delta_f=None)]
    (lines 218-256) *)
Definition assosiate_psd_to_inspiral_segment
           (self : PrecomputedTimeVaryingPSD) (inp_seg : segment)
           (delta_f : option Q) : result (FrequencySeries A) :=
  if Qltb (end_ self) (fst inp_seg) || Qltb (snd inp_seg) (begin_ self)
  then Err (ValueError (SegmentOutsideStore (begin_ self) (end_ self)))
  else
    sidx <- candidates self inp_seg ;;
    best_psd <- best_of self inp_seg delta_f sidx ;;
    truncate_inverse self best_psd.

End Selector.

Arguments psd_file A : clear implicits.
Arguments options A trunc_method : clear implicits.
Arguments PrecomputedTimeVaryingPSD A trunc_method : clear implicits.

End TimeVarying.

(** ** Vocabulary of the properties *)

Module Vocabulary.
Import Py XReal Np Segments TimeVarying.

(** No element of the list is below the one before it, for the order [lt]. *)
Fixpoint ascending {A : Type} (lt : A -> A -> bool) (l : list A) : Prop :=
  match l with
  | [] => True
  | x :: t => match t with
              | [] => True
              | y :: _ => lt y x = false
              end /\ ascending lt t
  end.

(** A table whose abscissas increase. *)
Definition increasing_table (l : list xreal) : Prop :=
  forall i j, (i < j < List.length l)%nat -> xlt (at_ l i) (at_ l j) = true.

(** The inputs [from_numpy_arrays] is specified for: frequencies that are
    strictly increasing and not negative, as many noise values, at least one
    sample asked for and a positive resolution. *)
Definition valid_input {A : Type} (freq_data : list Q) (noise_data : list A)
           (length : Z) (delta_f : Q) : Prop :=
  freq_data <> [] /\
  StronglySorted Qlt freq_data /\
  Forall (fun f => 0 <= f) freq_data /\
  List.length noise_data = List.length freq_data /\
  (1 <= length)%Z /\
  0 < delta_f.

(** The time two segments share: the length of their intersection, and zero
    when they do not intersect. *)
Definition overlap_duration (cand inp_seg : segment) : Q :=
  match seg_and cand inp_seg with
  | Ok s => seg_abs s
  | Err _ => 0
  end.

(** The result is not the range error of the selector (lines 224-227). *)
Definition not_range_error {X : Type} (r : result X) : Prop :=
  forall b e, r <> Err (ValueError (SegmentOutsideStore b e)).


Import Files.

(** The value [numpy.interp] gives for the abscissa [x] between the nodes
    [j] and [j + 1] of the table [xp], [fp]: the chord from the left node,
    and from the right node when that is not-a-number. *)
Definition chord (xp fp : list xreal) (j : nat) (x : xreal) : xreal :=
  let slope := xdiv (xsub (at_ fp (S j)) (at_ fp j))
                    (xsub (at_ xp (S j)) (at_ xp j)) in
  let r := xadd (xmul slope (xsub x (at_ xp j))) (at_ fp j) in
  if is_nan r then
    let r' := xadd (xmul slope (xsub x (at_ xp (S j)))) (at_ fp (S j)) in
    if is_nan r' && xeq (at_ fp j) (at_ fp (S j)) then at_ fp j else r'
  else r.

(** The interpolant of lines 81-82 on a table [flog], [slog] that is in
    increasing order: the last ordinate above the table, the first one below
    it, and [numpy.interp] inside. *)
Definition psd_interp_of (flog slog : list xreal) (x : xreal) : xreal :=
  if xlt (at_ flog (List.length flog - 1)) x then at_ slog (List.length slog - 1)
  else if xlt x (at_ flog 0) then at_ slog 0
  else np_interp flog slog x.

(** A float that is a real number, and one that is a positive real
    number. *)
Definition real_valued (a : xreal) : Prop := exists r, a = XFin r.

Definition positive_real (a : xreal) : Prop := exists r, a = XFin r /\ (0 < r)%R.

(** The logarithm of a number that is not negative: a real number, or minus
    infinity. *)
Definition log_value (a : xreal) : Prop := a = XNInf \/ real_valued a.

(** The numbers [from_txt] accepts: finite and not negative. *)
Definition clean (c : float64) : Prop := exists q, c = FFin q /\ 0 <= q.

(** Every line of the table holds as many numbers as the first one. *)
Definition rectangular (table : list (list float64)) : Prop :=
  forall l, In l table -> List.length l = List.length (hd [] table).

(** The keys of the pairs do not decrease. *)
Definition keys_in_order (l : list (nat * Q)) : Prop :=
  StronglySorted (fun a b => snd a <= snd b) l.

End Vocabulary.

(** ** Stores and inputs used as examples *)

Module Examples.
Import Py XReal Read TimeVarying.

Definition series (l : list xreal) : FrequencySeries xreal :=
  mkFrequencySeries l 1.

(** A spectrum sampled at 10, 11, 12 and 13 Hz, and one sampled from 0 Hz
    on, with the same values. *)
Definition grid_freq : list Q := [10; 11; 12; 13].
Definition grid_noise : list xreal := [XFin 1; XFin 2; XFin 3; XFin 4].
Definition full_grid_freq : list Q := [0; 1; 2; 3].

(** Three series, valid on [0, 100], [100, 200] and [200, 300]; the file
    holds nothing below 2 Hz. *)
Definition three_psds : psd_file xreal :=
  {| start_time := [0; 100; 200];
     end_time := [100; 200; 300];
     low_frequency_cutoff_attr := 2;
     psds := fun i =>
       match i with
       | 0%nat => Some (series [XFin 1; XFin 2; XFin 3; XFin 4])
       | 1%nat => Some (series [XFin 5; XFin 6])
       | 2%nat => Some (series [XFin 7])
       | _ => None
       end |}.

(** The first two of them only. *)
Definition two_psds : psd_file xreal :=
  {| start_time := [0; 100];
     end_time := [100; 200];
     low_frequency_cutoff_attr := 2;
     psds := fun i =>
       match i with
       | 0%nat => Some (series [XFin 1; XFin 2; XFin 3; XFin 4])
       | 1%nat => Some (series [XFin 5; XFin 6])
       | _ => None
       end |}.

Definition options_of (f : psd_file xreal) (f_low : option Q) : options xreal unit :=
  {| precomputed_psd_file := f;
     low_frequency_cutoff := f_low;
     opt_psd_inverse_length := None;
     opt_invpsd_trunc_method := None |}.

(** Collaborators that leave the series as it is. *)
Definition keep_resolution (p : FrequencySeries xreal) (d : Q)
  : result (FrequencySeries xreal) := Ok p.

Definition keep_spectrum (p : FrequencySeries xreal) (n : Z) (f : option Q)
           (m : option unit) : result (FrequencySeries xreal) := Ok p.

(** The selector [PrecomputedTimeVaryingPSD(opt, length, 1, 4096)] on a
    file [f] whose times span [b, e]. *)
Definition selector_on (f : psd_file xreal) (f_low : option Q)
           (length : option Z) (b e : Q) : PrecomputedTimeVaryingPSD xreal unit :=
  {| opt := options_of f f_low;
     file_name := f;
     f_low := f_low;
     TimeVarying.length := length;
     TimeVarying.delta_f := 1;
     sample_rate := 4096;
     psd_inverse_length := None;
     invpsd_trunc_method := None;
     start_times := start_time f;
     end_times := end_time f;
     file_f_low := low_frequency_cutoff_attr f;
     begin_ := b;
     end_ := e |}.

Definition run_selector (self : PrecomputedTimeVaryingPSD xreal unit)
           (inp_seg : Segments.segment) : result (FrequencySeries xreal) :=
  assosiate_psd_to_inspiral_segment (XFin 0) XPInf keep_resolution
                                    keep_spectrum self inp_seg None.

Definition run_get_psd (self : PrecomputedTimeVaryingPSD xreal unit)
           (index : nat) : result (FrequencySeries xreal) :=
  get_psd (XFin 0) XPInf keep_resolution self index None.

End Examples.

(** ** Files used as examples *)

Module FileExamples.
Import Py XReal Read Files.
Import String.

(** The ifo string of the first LIGO Hanford detector, and the default
    root name of [from_xml]. *)
Definition H1 : string := "H1"%string.
Definition psd_root : string := "psd"%string.


(** A file with a line whose amplitude is not-a-number, and a file of a
    single line. *)
Definition nan_txt : txt_file :=
  {| path := "nan.txt"%string;
     lines := [[FFin 10; FFin 1]; [FFin 11; FNaN]] |}.

Definition one_line_txt : txt_file :=
  {| path := "line.txt"%string;
     lines := [[FFin 10; FFin 1]] |}.

(** An XML file with one PSD, for H1: four samples spaced by 1 Hz. *)
Definition h1_psd : REAL8FrequencySeries :=
  {| deltaF := 1;
     data_data := [XFin 1; XFin 2; XFin 3; XFin 4] |}.

Definition h1_xml : xml_file :=
  {| read_psd_xmldoc := fun root_name => [(H1, h1_psd)] |}.

End FileExamples.

(** * Properties *)

Import Py XReal Np Read Segments TimeVarying Vocabulary.

Unset Implicit Arguments.

(** ** Comparisons and truncation *)

Lemma Qltb_lt (a b : Q) : Qltb a b = true <-> a < b.
Proof.
  unfold Qltb. rewrite negb_true_iff, <- not_true_iff_false, Qle_bool_iff.
  split; [apply Qnot_le_lt | apply Qlt_not_le].
Qed.

Lemma Qltb_ge (a b : Q) : Qltb a b = false <-> b <= a.
Proof.
  unfold Qltb. rewrite negb_false_iff. apply Qle_bool_iff.
Qed.

Lemma Qeq_bool_false (a b : Q) : Qeq_bool a b = false <-> ~ a == b.
Proof.
  rewrite <- not_true_iff_false, Qeq_bool_iff. tauto.
Qed.

(** On a non-negative float [int] is the floor. *)
Lemma py_int_floor (x : Q) : 0 <= x -> py_int x = Qfloor x.
Proof.
  destruct x as [n d]. unfold Qle, py_int, Qfloor; simpl. intros H.
  apply Z.quot_div_nonneg; lia.
Qed.

(** Where the floor is not negative, [int] is the floor. *)
Lemma py_int_floor_nonneg (x : Q) : (0 <= Qfloor x)%Z -> py_int x = Qfloor x.
Proof.
  intros H. apply py_int_floor.
  apply Qle_trans with (inject_Z (Qfloor x)); [| apply Qfloor_le].
  change 0 with (inject_Z 0). rewrite <- Zle_Qle. exact H.
Qed.

Lemma Qdiv_nonneg (a b : Q) : 0 <= a -> 0 < b -> 0 <= a / b.
Proof.
  intros Ha Hb. unfold Qdiv. apply Qmult_le_0_compat; [exact Ha |].
  apply Qlt_le_weak, Qinv_lt_0_compat, Hb.
Qed.

Lemma py_div_nonzero (a b : Q) : ~ b == 0 -> py_div a b = Ok (a / b).
Proof.
  intros H. unfold py_div. apply Qeq_bool_false in H. now rewrite H.
Qed.

(** ** Python indexing and slices *)

Lemma py_index_nat {A : Type} (l : list A) (i : nat) :
  py_index l (Z.of_nat i) =
  match nth_error l i with Some a => Ok a | None => Err IndexError end.
Proof.
  unfold py_index.
  destruct (Z.of_nat i <? 0)%Z eqn:E; [apply Z.ltb_lt in E; lia |].
  rewrite E. simpl.
  destruct (Z.of_nat (List.length l) <=? Z.of_nat i)%Z eqn:E'.
  - apply Z.leb_le in E'.
    destruct (nth_error l i) eqn:En; [| reflexivity].
    assert (i < List.length l)%nat by (apply nth_error_Some; congruence). lia.
  - rewrite Nat2Z.id. reflexivity.
Qed.

Lemma slice_pos_nonneg (n : nat) (k : Z) :
  (0 <= k)%Z -> slice_pos n k = Nat.min (Z.to_nat k) n.
Proof.
  intros H. unfold slice_pos.
  destruct (k <? 0)%Z eqn:E; [apply Z.ltb_lt in E; lia | reflexivity].
Qed.

Lemma slice_pos_le (n : nat) (i : Z) : (slice_pos n i <= n)%nat.
Proof.
  unfold slice_pos. destruct (i <? 0)%Z eqn:E; [apply Z.ltb_lt in E |]; lia.
Qed.

Lemma length_np_fill {A : Type} (l : list A) lo hi v :
  List.length (np_fill l lo hi v) = List.length l.
Proof.
  unfold np_fill. destruct (slice_bounds _ _ _) as [a room] eqn:E.
  unfold slice_bounds in E. injection E as <- <-.
  rewrite !length_app, repeat_length, length_firstn, length_skipn.
  pose proof (slice_pos_le (List.length l) lo).
  destruct hi as [h |]; [pose proof (slice_pos_le (List.length l) h) |]; lia.
Qed.

(** [l[0:k] = v] with [k >= 0] overwrites the bins below [k] and no other. *)
Lemma nth_error_np_fill_to {A : Type} (l : list A) (k : Z) (v : A) (i : nat) :
  (0 <= k)%Z -> (i < List.length l)%nat ->
  nth_error (np_fill l 0 (Some k) v) i =
  if (Z.of_nat i <? k)%Z then Some v else nth_error l i.
Proof.
  intros Hk Hi. unfold np_fill, slice_bounds.
  rewrite (slice_pos_nonneg (List.length l) k Hk).
  change (slice_pos (List.length l) 0) with (Nat.min 0 (List.length l)).
  rewrite Nat.min_0_l, Nat.sub_0_r. simpl.
  destruct (Z.of_nat i <? k)%Z eqn:E.
  - apply Z.ltb_lt in E.
    rewrite nth_error_app1 by (rewrite repeat_length; lia).
    apply nth_error_repeat. lia.
  - apply Z.ltb_ge in E.
    rewrite nth_error_app2 by (rewrite repeat_length; lia).
    rewrite repeat_length, nth_error_skipn. f_equal. lia.
Qed.

Lemma np_fill_all {A : Type} (l : list A) (v : A) :
  np_fill l 0 None v = repeat v (List.length l).
Proof.
  unfold np_fill, slice_bounds.
  change (slice_pos (List.length l) 0) with (Nat.min 0 (List.length l)).
  rewrite Nat.min_0_l, Nat.sub_0_r. simpl.
  rewrite skipn_all. apply app_nil_r.
Qed.

(** [l[0:n] = src] for a source of [n <= len(l)] elements. *)
Lemma np_assign_prefix {A : Type} (l src : list A) :
  (List.length src <= List.length l)%nat ->
  np_assign l 0 (Some (Z.of_nat (List.length src))) src =
  Ok (src ++ skipn (List.length src) l).
Proof.
  intros H. unfold np_assign, slice_bounds.
  rewrite (slice_pos_nonneg _ (Z.of_nat (List.length src))) by lia.
  rewrite Nat2Z.id.
  change (slice_pos (List.length l) 0) with (Nat.min 0 (List.length l)).
  rewrite Nat.min_0_l, Nat.sub_0_r, Nat.min_l by lia.
  rewrite Nat.eqb_refl. reflexivity.
Qed.

(** [l[:] = src] for a source as long as [l]. *)
Lemma np_assign_all {A : Type} (l src : list A) :
  List.length src = List.length l -> np_assign l 0 None src = Ok src.
Proof.
  intros H. unfold np_assign, slice_bounds.
  change (slice_pos (List.length l) 0) with (Nat.min 0 (List.length l)).
  rewrite Nat.min_0_l, Nat.sub_0_r, H, Nat.eqb_refl. simpl.
  rewrite <- H at 1. rewrite skipn_all2 by lia. now rewrite app_nil_r.
Qed.

Lemma py_slice_to {A : Type} (l : list A) (k : Z) :
  (0 <= k)%Z -> py_slice l 0 (Some k) = firstn (Z.to_nat k) l.
Proof.
  intros H. unfold py_slice, slice_bounds.
  rewrite (slice_pos_nonneg _ k H).
  change (slice_pos (List.length l) 0) with (Nat.min 0 (List.length l)).
  rewrite Nat.min_0_l, Nat.sub_0_r. simpl.
  destruct (Nat.le_ge_cases (Z.to_nat k) (List.length l)) as [Hle | Hge].
  - now rewrite Nat.min_l.
  - rewrite Nat.min_r by lia. rewrite !firstn_all2; auto.
Qed.

Lemma skipn_repeat {A : Type} (v : A) (n m : nat) :
  skipn n (repeat v m) = repeat v (m - n).
Proof.
  revert m. induction n as [| n IH]; intros [| m]; simpl; auto.
Qed.

Lemma py_index_0 {A : Type} (x : A) (l : list A) : py_index (x :: l) 0 = Ok x.
Proof.
  unfold py_index. cbn [Z.ltb Z.compare]. cbv iota.
  destruct (Z.of_nat (List.length (x :: l)) <=? 0)%Z eqn:E.
  - apply Z.leb_le in E. simpl List.length in E. lia.
  - reflexivity.
Qed.

Lemma nth_error_last {A : Type} (l : list A) (d : A) :
  l <> [] -> nth_error l (List.length l - 1) = Some (last l d).
Proof.
  intros Hne. destruct (exists_last Hne) as [l' [a ->]].
  rewrite last_last, length_app. simpl List.length.
  rewrite nth_error_app2 by lia.
  replace (List.length l' + 1 - 1 - List.length l')%nat with 0%nat by lia.
  reflexivity.
Qed.

Lemma py_index_last {A : Type} (l : list A) (d : A) :
  l <> [] -> py_index l (-1) = Ok (last l d).
Proof.
  intros Hne. unfold py_index. cbn [Z.ltb Z.compare]. cbv iota.
  assert (Hn : (0 < List.length l)%nat) by (destruct l; [contradiction | simpl; lia]).
  destruct (-1 + Z.of_nat (List.length l) <? 0)%Z eqn:E1;
    [apply Z.ltb_lt in E1; lia |].
  destruct (Z.of_nat (List.length l) <=? -1 + Z.of_nat (List.length l))%Z eqn:E2;
    [apply Z.leb_le in E2; lia |].
  cbn [orb].
  replace (Z.to_nat (-1 + Z.of_nat (List.length l))) with (List.length l - 1)%nat by lia.
  now rewrite (nth_error_last l d Hne).
Qed.

Lemma last_skipn {A : Type} (l : list A) (d : A) (j : nat) :
  (j < List.length l)%nat -> last (skipn j l) d = last l d.
Proof.
  revert l. induction j as [| j IH]; intros l Hj; [reflexivity |].
  destruct l as [| x l]; [simpl in Hj; lia |].
  simpl in Hj. cbn [skipn]. rewrite IH by lia.
  destruct l; [simpl in Hj; lia | reflexivity].
Qed.

Lemma skipn_nonempty {A : Type} (l : list A) (j : nat) :
  (j < List.length l)%nat -> skipn j l <> [].
Proof.
  intros Hj H. apply (f_equal (@List.length A)) in H.
  rewrite length_skipn in H. simpl in H. lia.
Qed.

(** The slice [l[i:]] for a start [-1 <= i < len(l)]: a start of [-1] is the
    last position. *)
Lemma py_slice_from {A : Type} (l : list A) (i : Z) :
  l <> [] -> (-1 <= i < Z.of_nat (List.length l))%Z ->
  exists j, (j < List.length l)%nat /\ py_slice l i None = skipn j l /\
            j = (if (i <? 0)%Z then List.length l - 1 else Z.to_nat i)%nat.
Proof.
  intros Hne Hi.
  assert (Hn : (0 < List.length l)%nat) by (destruct l; [contradiction | simpl; lia]).
  unfold py_slice, slice_bounds, slice_pos.
  destruct (i <? 0)%Z eqn:E.
  - apply Z.ltb_lt in E. assert (i = (-1)%Z) by lia. subst i.
    exists (List.length l - 1)%nat. split; [lia |]. split; [| reflexivity].
    replace (Z.to_nat (Z.max 0 (-1 + Z.of_nat (List.length l))))
      with (List.length l - 1)%nat by lia.
    apply firstn_all2. rewrite length_skipn. lia.
  - apply Z.ltb_ge in E. exists (Z.to_nat i). split; [lia |]. split; [| reflexivity].
    rewrite Nat.min_l by lia.
    apply firstn_all2. rewrite length_skipn. lia.
Qed.

(** ** Binary search *)

Section Bisect.
Context {A : Type} (p : A -> bool) (a : list A).

(** The elements that satisfy [p] come first. *)
Hypothesis p_monotone :
  forall i j x y, (i <= j)%nat -> nth_error a i = Some x ->
                  nth_error a j = Some y -> p y = true -> p x = true.

Lemma bisect_left_spec (lt : A -> A -> bool) (v : A) :
  (forall x, lt x v = p x) ->
  forall fuel lo hi,
    (lo <= hi <= List.length a)%nat -> (hi - lo < fuel)%nat ->
    (forall i x, (i < lo)%nat -> nth_error a i = Some x -> p x = true) ->
    (forall i x, (hi <= i)%nat -> nth_error a i = Some x -> p x = false) ->
    let r := bisect_left lt a v fuel lo hi in
    (lo <= r <= hi)%nat /\
    (forall i x, (i < r)%nat -> nth_error a i = Some x -> p x = true) /\
    (forall i x, (r <= i)%nat -> nth_error a i = Some x -> p x = false).
Proof.
  intros Hlt. induction fuel as [| fuel IH]; intros lo hi Hb Hf Hlo Hhi; [lia |].
  cbn [bisect_left].
  destruct (lo <? hi)%nat eqn:E.
  - apply Nat.ltb_lt in E.
    assert (Hdiv : ((hi - lo) / 2 < hi - lo)%nat)
      by (apply Nat.div_lt; lia).
    set (mid := (lo + (hi - lo) / 2)%nat) in *.
    assert (Hmid : (lo <= mid < hi)%nat) by (subst mid; lia).
    destruct (nth_error a mid) as [x |] eqn:Ex.
    + rewrite Hlt. destruct (p x) eqn:Epx.
      * destruct (IH (S mid) hi) as [Hr [Hbelow Habove]]; try lia.
        { intros i y Hi Hy. apply (p_monotone i mid y x); auto; lia. }
        { exact Hhi. }
        split; [lia | split; assumption].
      * destruct (IH lo mid) as [Hr [Hbelow Habove]]; try lia.
        { exact Hlo. }
        { intros i y Hi Hy. destruct (p y) eqn:Epy; [| reflexivity].
          rewrite <- Epx. symmetry. apply (p_monotone mid i x y); auto. }
        split; [lia | split; assumption].
    + exfalso. apply nth_error_None in Ex. lia.
  - apply Nat.ltb_ge in E. assert (lo = hi) by lia. subst hi.
    split; [lia | split; assumption].
Qed.

(** [searchsorted] returns the number of elements that satisfy [p]. *)
Lemma searchsorted_by_spec (lt : A -> A -> bool) (v : A) :
  (forall x, lt x v = p x) ->
  let r := searchsorted_by lt a v in
  (r <= List.length a)%nat /\
  (forall i x, (i < r)%nat -> nth_error a i = Some x -> p x = true) /\
  (forall i x, (r <= i)%nat -> nth_error a i = Some x -> p x = false).
Proof.
  intros Hlt. unfold searchsorted_by.
  destruct (bisect_left_spec lt v Hlt (S (List.length a)) 0 (List.length a))
    as [Hr [Hbelow Habove]].
  - lia.
  - lia.
  - intros i x Hi. lia.
  - intros i x Hi Hx. apply nth_error_None in Hi. congruence.
  - split; [lia | split; assumption].
Qed.

End Bisect.

Lemma StronglySorted_nth_error (l : list Q) :
  StronglySorted Qlt l ->
  forall i j x y, (i < j)%nat -> nth_error l i = Some x ->
                  nth_error l j = Some y -> x < y.
Proof.
  induction 1 as [| a l Hs IH Hall]; intros i j x y Hij Hi Hj.
  - destruct i; discriminate.
  - destruct j as [| j]; [lia |]. simpl in Hj.
    destruct i as [| i]; simpl in Hi.
    + injection Hi as <-. rewrite Forall_forall in Hall.
      apply Hall. eapply nth_error_In; eauto.
    + apply (IH i j); auto; lia.
Qed.

(** On increasing frequencies [searchsorted] counts those below [v]. *)
Lemma searchsorted_spec (freq : list Q) (v : Q) :
  StronglySorted Qlt freq ->
  (searchsorted freq v <= List.length freq)%nat /\
  (forall i x, (i < searchsorted freq v)%nat -> nth_error freq i = Some x -> x < v) /\
  (forall i x, (searchsorted freq v <= i)%nat -> nth_error freq i = Some x -> v <= x).
Proof.
  intros Hs.
  destruct (searchsorted_by_spec (fun x => Qltb x v) freq) with (lt := Qltb) (v := v)
    as [Hr [Hbelow Habove]].
  - intros i j x y Hij Hx Hy Hp. apply Qltb_lt in Hp. apply Qltb_lt.
    destruct (Nat.eq_dec i j) as [-> | Hne].
    + rewrite Hx in Hy. now injection Hy as ->.
    + eapply Qlt_trans; [| exact Hp].
      apply (StronglySorted_nth_error freq Hs i j); auto; lia.
  - reflexivity.
  - split; [exact Hr |]. split.
    + intros i x Hi Hx. apply Qltb_lt. eapply Hbelow; eauto.
    + intros i x Hi Hx. apply Qltb_ge. eapply Habove; eauto.
Qed.

(** ** Reductions *)

Lemma Qmin_either (x y : Q) : Qmin x y = x \/ Qmin x y = y.
Proof. unfold Qmin, GenericMinMax.gmin. destruct (x ?= y); auto. Qed.

Lemma Qmax_either (x y : Q) : Qmax x y = x \/ Qmax x y = y.
Proof. unfold Qmax, GenericMinMax.gmax. destruct (x ?= y); auto. Qed.

Lemma fold_Qmin_spec (t : list Q) : forall x,
  In (fold_left Qmin t x) (x :: t) /\
  Forall (fun y => fold_left Qmin t x <= y) (x :: t).
Proof.
  induction t as [| y t IH]; intros x; simpl.
  - split; [auto | constructor; [apply Qle_refl | constructor]].
  - destruct (IH (Qmin x y)) as [Hin Hall]. split.
    + destruct Hin as [Hin | Hin]; [| auto].
      rewrite <- Hin. destruct (Qmin_either x y) as [E | E]; rewrite E; auto.
    + inversion Hall as [| ? ? Hhd Htl]; subst.
      constructor; [| constructor; [| exact Htl]].
      * eapply Qle_trans; [exact Hhd | apply Q.le_min_l].
      * eapply Qle_trans; [exact Hhd | apply Q.le_min_r].
Qed.

Lemma fold_Qmax_spec (t : list Q) : forall x,
  In (fold_left Qmax t x) (x :: t) /\
  Forall (fun y => y <= fold_left Qmax t x) (x :: t).
Proof.
  induction t as [| y t IH]; intros x; simpl.
  - split; [auto | constructor; [apply Qle_refl | constructor]].
  - destruct (IH (Qmax x y)) as [Hin Hall]. split.
    + destruct Hin as [Hin | Hin]; [| auto].
      rewrite <- Hin. destruct (Qmax_either x y) as [E | E]; rewrite E; auto.
    + inversion Hall as [| ? ? Hhd Htl]; subst.
      constructor; [| constructor; [| exact Htl]].
      * eapply Qle_trans; [apply Q.le_max_l | exact Hhd].
      * eapply Qle_trans; [apply Q.le_max_r | exact Hhd].
Qed.

(** [a.min()] is an element of [a] below all the others. *)
Lemma np_min_spec (l : list Q) (m : Q) :
  np_min l = Ok m -> In m l /\ Forall (fun y => m <= y) l.
Proof.
  destruct l as [| x t]; simpl; [discriminate |].
  intros [= <-]. apply fold_Qmin_spec.
Qed.

(** [a.max()] is an element of [a] above all the others. *)
Lemma np_max_spec (l : list Q) (m : Q) :
  np_max l = Ok m -> In m l /\ Forall (fun y => y <= m) l.
Proof.
  destruct l as [| x t]; simpl; [discriminate |].
  intros [= <-]. apply fold_Qmax_spec.
Qed.

(** ** Segments *)





(** ** Where the range error can come from *)

Lemma not_range_error_Ok {X : Type} (x : X) : not_range_error (Ok x).
Proof. intros b e; discriminate. Qed.

Lemma not_range_error_bind {X Y : Type} (m : result X) (k : X -> result Y) :
  not_range_error m -> (forall x, not_range_error (k x)) ->
  not_range_error (bind m k).
Proof.
  intros Hm Hk. destruct m as [x | ex]; simpl; [apply Hk |].
  intros b e [= H]. apply (Hm b e). now rewrite H.
Qed.

Lemma not_range_error_py_index {X : Type} (l : list X) (i : Z) :
  not_range_error (py_index l i).
Proof.
  unfold py_index. intros b e.
  destruct (_ || _); [discriminate |].
  destruct (nth_error _ _); discriminate.
Qed.

Lemma not_range_error_seg_and (s t : segment) : not_range_error (seg_and s t).
Proof. unfold seg_and. intros b e. destruct (_ || _); discriminate. Qed.

Lemma not_range_error_np_assign {X : Type} (l : list X) lo hi src :
  not_range_error (np_assign l lo hi src).
Proof.
  unfold np_assign. intros b e. destruct (slice_bounds _ _ _) as [a room].
  destruct (Nat.eqb _ _); [discriminate |].
  destruct src as [| v [| w src]]; discriminate.
Qed.

Create HintDb range.

#[local] Hint Resolve not_range_error_Ok not_range_error_py_index
  not_range_error_seg_and not_range_error_np_assign : range.

Ltac range_step :=
  match goal with
  | |- not_range_error (bind _ _) => apply not_range_error_bind; [| intros ?]
  | |- not_range_error (if ?c then _ else _) => destruct c
  | |- not_range_error (match ?x with Some _ => _ | None => _ end) => destruct x
  | |- not_range_error (match ?x with pair _ _ => _ end) => destruct x
  | |- not_range_error (Err _) => intros ? ?; discriminate
  | |- not_range_error _ => solve [auto with range]
  end.

(** ** Floats *)

Lemma Rltb_true (a b : R) : (a < b)%R -> Rltb a b = true.
Proof. intros H. unfold Rltb. destruct (Rlt_dec a b); [reflexivity | contradiction]. Qed.

Lemma Rltb_false (a b : R) : (b <= a)%R -> Rltb a b = false.
Proof.
  intros H. unfold Rltb. destruct (Rlt_dec a b) as [Hlt |]; [| reflexivity].
  exfalso. lra.
Qed.

Lemma of_Q_inject_Z (k : Z) : of_Q (inject_Z k) = XFin (IZR k).
Proof.
  unfold of_Q, Q2R. cbn [Qnum Qden inject_Z]. f_equal.
  rewrite Rinv_1. apply Rmult_1_r.
Qed.

Lemma of_Q_bin (k : Z) : of_Q (inject_Z k * 1) = XFin (IZR k).
Proof.
  unfold of_Q. f_equal. rewrite Q2R_mult. unfold Q2R. cbn [Qnum Qden inject_Z].
  rewrite Rinv_1. now rewrite !Rmult_1_r.
Qed.

Lemma np_log_pos (r : R) : (0 < r)%R -> np_log (XFin r) = XFin (ln r).
Proof. intros H. unfold np_log. now rewrite Rltb_true. Qed.

Lemma xlt_fin (a b : R) : xlt (XFin a) (XFin b) = Rltb a b.
Proof. reflexivity. Qed.

Lemma Rltb_ln_true (a b : R) : (0 < a)%R -> (a < b)%R -> Rltb (ln a) (ln b) = true.
Proof. intros Ha Hab. apply Rltb_true. now apply ln_increasing. Qed.

Lemma Rltb_ln_false (a b : R) : (0 < b)%R -> (b <= a)%R -> Rltb (ln a) (ln b) = false.
Proof.
  intros Hb Hba. apply Rltb_false.
  destruct Hba as [Hlt | ->]; [| apply Rle_refl].
  apply Rlt_le. now apply ln_increasing.
Qed.

Lemma np_log_zero : np_log (XFin 0) = XNInf.
Proof.
  unfold np_log. rewrite Rltb_false by lra.
  unfold Reqb. destruct (Req_dec_T 0 0); [reflexivity | contradiction].
Qed.

(** ** Sorting a sorted table *)

Section SortedTable.
Context {A : Type} (lt : A -> A -> bool).

Lemma sort_keys_ascending (l : list A) (s : nat) :
  ascending lt l ->
  sort_keys lt (combine (seq s (List.length l)) l) = combine (seq s (List.length l)) l.
Proof.
  revert s. induction l as [| x t IH]; intros s Hasc; [reflexivity |].
  destruct Hasc as [Hhd Htl]. cbn [List.length seq combine sort_keys].
  rewrite (IH (S s) Htl).
  destruct t as [| y t']; [reflexivity |].
  cbn [List.length seq combine insert_key]. now rewrite Hhd.
Qed.

Lemma map_fst_combine {B C : Type} (l1 : list B) (l2 : list C) :
  List.length l1 = List.length l2 -> map fst (combine l1 l2) = l1.
Proof.
  revert l2. induction l1 as [| b l1 IH]; intros [| c l2] H;
    try reflexivity; try discriminate.
  cbn [combine map fst]. f_equal. apply IH. now injection H.
Qed.

(** The stable sort leaves a table that is in order as it is. *)
Lemma argsort_ascending (l : list A) :
  ascending lt l -> argsort lt l = seq 0 (List.length l).
Proof.
  intros H. unfold argsort. rewrite (sort_keys_ascending l 0 H).
  apply map_fst_combine. apply length_seq.
Qed.

End SortedTable.

Lemma map_nth_seq {B : Type} (l : list B) (d : B) :
  map (fun i => nth i l d) (seq 0 (List.length l)) = l.
Proof.
  induction l as [| b l IH]; [reflexivity |].
  cbn [List.length seq map nth]. f_equal.
  rewrite <- seq_shift, map_map. exact IH.
Qed.

(** ** The order of the floats *)


Lemma Rltb_spec (a b : R) : Rltb a b = true <-> (a < b)%R.
Proof.
  unfold Rltb. destruct (Rlt_dec a b); split; auto; discriminate.
Qed.


Lemma xlt_not_nan (a b : xreal) :
  xlt a b = true -> is_nan a = false /\ is_nan b = false.
Proof. destruct a, b; simpl; intros H; try discriminate; auto. Qed.

Lemma xlt_asym (a b : xreal) : xlt a b = true -> xlt b a = false.
Proof.
  destruct a, b; simpl; intros H; try discriminate; try reflexivity.
  apply Rltb_spec in H. apply Rltb_false. lra.
Qed.

Lemma xlt_trans (a b c : xreal) :
  xlt a b = true -> xlt b c = true -> xlt a c = true.
Proof.
  destruct a, b, c; simpl; intros H1 H2; try discriminate; try reflexivity.
  apply Rltb_spec in H1, H2. apply Rltb_spec. lra.
Qed.



Lemma xle_of_xlt (a b : xreal) : xlt a b = true -> xle a b = true.
Proof. intros H. unfold xle. now rewrite H. Qed.


Lemma increasing_tail (x : xreal) (l : list xreal) :
  increasing_table (x :: l) -> increasing_table l.
Proof.
  intros H i j Hij. apply (H (S i) (S j)). simpl. lia.
Qed.

Lemma increasing_ascending (l : list xreal) :
  increasing_table l -> ascending sort_lt l.
Proof.
  induction l as [| x t IH]; intros H; [exact I |].
  split; [| apply IH; eapply increasing_tail; eauto].
  destruct t as [| y t']; [exact I |].
  assert (Hxy : xlt x y = true) by (apply (H 0%nat 1%nat); simpl; lia).
  unfold sort_lt. rewrite (xlt_asym x y Hxy).
  destruct (xlt_not_nan x y Hxy) as [-> _]. reflexivity.
Qed.

Lemma xeq_eq (a b : xreal) : xeq a b = true -> a = b.
Proof.
  destruct a, b; simpl; intros H; try discriminate; try reflexivity.
  unfold Reqb in H. destruct (Req_dec_T r r0); [now subst | discriminate].
Qed.

Lemma xle_xlt_trans (a b c : xreal) :
  xlt a b = true -> xle b c = true -> xle a c = true.
Proof.
  intros Hab Hbc. unfold xle in Hbc. apply orb_true_iff in Hbc.
  apply xle_of_xlt. destruct Hbc as [Hlt | Heq].
  - eapply xlt_trans; eauto.
  - apply xeq_eq in Heq. now subst.
Qed.

Lemma at_nth_error (l : list xreal) (i : nat) (x : xreal) :
  nth_error l i = Some x -> at_ l i = x.
Proof. intros H. unfold at_. now apply nth_error_nth. Qed.

Lemma nth_error_at (l : list xreal) (i : nat) :
  (i < List.length l)%nat -> nth_error l i = Some (at_ l i).
Proof. intros H. unfold at_. now apply nth_error_nth'. Qed.


Lemma increasing_not_nan (xs : list xreal) (j : nat) :
  increasing_table xs -> (2 <= List.length xs)%nat -> (j < List.length xs)%nat ->
  is_nan (at_ xs j) = false.
Proof.
  intros Hinc Hn Hj. destruct j as [| j].
  - apply (xlt_not_nan (at_ xs 0) (at_ xs 1)). apply Hinc. lia.
  - apply (xlt_not_nan (at_ xs 0) (at_ xs (S j))). apply Hinc. lia.
Qed.





Lemma Q2R_nonneg (a : Q) : 0 <= a -> (0 <= Q2R a)%R.
Proof.
  intros H. apply Qle_Rle in H. replace (Q2R 0) with 0%R in H; [exact H |].
  unfold Q2R. simpl. lra.
Qed.

Lemma Q2R_pos (a : Q) : 0 < a -> (0 < Q2R a)%R.
Proof.
  intros H. apply Qlt_Rlt in H. replace (Q2R 0) with 0%R in H; [exact H |].
  unfold Q2R. simpl. lra.
Qed.

(** The logarithms of increasing, non-negative frequencies increase. *)
Lemma np_log_of_Q_lt (a b : Q) :
  0 <= a -> a < b -> xlt (np_log (of_Q a)) (np_log (of_Q b)) = true.
Proof.
  intros Ha Hab. unfold of_Q.
  assert (Hb : (0 < Q2R b)%R) by (apply Q2R_pos; eapply Qle_lt_trans; eauto).
  rewrite (np_log_pos _ Hb).
  destruct (Q2R_nonneg a Ha) as [Hpos | Hzero].
  - rewrite (np_log_pos _ Hpos). rewrite xlt_fin.
    apply Rltb_ln_true; [exact Hpos | now apply Qlt_Rlt].
  - rewrite <- Hzero, np_log_zero. reflexivity.
Qed.

Lemma increasing_log_frequencies (l : list Q) :
  StronglySorted Qlt l -> Forall (fun f => 0 <= f) l ->
  increasing_table (map (fun f => np_log (of_Q f)) l).
Proof.
  intros Hs Hnn i j Hij. rewrite length_map in Hij.
  destruct (nth_error l i) as [a |] eqn:Ea;
    [| apply nth_error_None in Ea; lia].
  destruct (nth_error l j) as [b |] eqn:Eb;
    [| apply nth_error_None in Eb; lia].
  rewrite (at_nth_error _ i _ (map_nth_error _ _ _ Ea)).
  rewrite (at_nth_error _ j _ (map_nth_error _ _ _ Eb)).
  apply np_log_of_Q_lt.
  - rewrite Forall_forall in Hnn. apply Hnn. eapply nth_error_In; eauto.
  - apply (StronglySorted_nth_error l Hs i j); auto; lia.
Qed.

Lemma increasing_skipn (l : list xreal) (n : nat) :
  increasing_table l -> increasing_table (skipn n l).
Proof.
  intros H i j Hij. rewrite length_skipn in Hij.
  unfold at_. rewrite !nth_skipn. apply H. lia.
Qed.

Lemma nth_error_np_arange (lo hi : Z) (i : nat) :
  (Z.of_nat i < hi - lo)%Z ->
  nth_error (np_arange lo hi) i = Some (lo + Z.of_nat i)%Z.
Proof.
  intros H. unfold np_arange.
  apply (map_nth_error (fun i => (lo + Z.of_nat i)%Z) i (seq 0 (Z.to_nat (hi - lo)))).
  rewrite nth_error_seq.
  destruct (i <? Z.to_nat (hi - lo))%nat eqn:E; [reflexivity |].
  apply Nat.ltb_ge in E. lia.
Qed.

Lemma np_exp_log (v : R) : (0 <= v)%R -> np_exp (np_log (XFin v)) = XFin v.
Proof.
  intros [Hpos | Hzero].
  - rewrite (np_log_pos _ Hpos). cbn [np_exp]. now rewrite exp_ln.
  - rewrite <- Hzero, np_log_zero. reflexivity.
Qed.

(** ** The resampler *)

Lemma py_index_Ok_bounds {A : Type} (l : list A) (i : Z) (x : A) :
  py_index l i = Ok x ->
  (- Z.of_nat (List.length l) <= i < Z.of_nat (List.length l))%Z.
Proof.
  unfold py_index. destruct (i <? 0)%Z eqn:E.
  - apply Z.ltb_lt in E.
    destruct (i + Z.of_nat (List.length l) <? 0)%Z eqn:E1; [discriminate |].
    apply Z.ltb_ge in E1. intros _. lia.
  - apply Z.ltb_ge in E. rewrite (proj2 (Z.ltb_ge _ _) E). cbn [orb].
    destruct (Z.of_nat (List.length l) <=? i)%Z eqn:E1; [discriminate |].
    apply Z.leb_gt in E1. intros _. lia.
Qed.

Lemma py_index_in_range {A : Type} (l : list A) (i : nat) :
  (i < List.length l)%nat -> exists x, py_index l (Z.of_nat i) = Ok x /\ nth_error l i = Some x.
Proof.
  intros Hi. rewrite py_index_nat.
  destruct (nth_error l i) as [x |] eqn:E; [eauto |].
  apply nth_error_None in E. lia.
Qed.


Section Trim.
Context {A : Type}.
Implicit Types (freq_data : list Q) (noise_data : list A).

(** Lines 53-55. *)
Lemma trim_guard freq_data noise_data (delta_f low_freq_cutoff f0 : Q) (t : list Q) :
  freq_data = f0 :: t -> low_freq_cutoff < f0 ->
  trim freq_data noise_data delta_f low_freq_cutoff =
  Err (ValueError (LowestFrequencyAboveCutoff low_freq_cutoff)).
Proof.
  intros -> Hlt. unfold trim. rewrite py_index_0. cbn [bind].
  apply Qltb_lt in Hlt. now rewrite Hlt.
Qed.

(** What the trimming returns, when it returns. *)
Lemma trim_Ok freq_data noise_data (delta_f low_freq_cutoff : Q)
      (kmin : Z) (freq' : list Q) (noise' : list A) :
  0 < delta_f -> Forall (fun f => 0 <= f) freq_data ->
  List.length noise_data = List.length freq_data ->
  trim freq_data noise_data delta_f low_freq_cutoff = Ok (kmin, freq', noise') ->
  exists f0 t j,
    freq_data = f0 :: t /\ f0 <= low_freq_cutoff /\
    kmin = Qfloor (low_freq_cutoff / delta_f) /\ (0 <= kmin)%Z /\
    (j < List.length freq_data)%nat /\
    freq' = skipn j freq_data /\ noise' = skipn j noise_data.
Proof.
  intros Hd Hnn Hlen. unfold trim.
  destruct freq_data as [| f0 t]; [discriminate |].
  rewrite py_index_0. cbn [bind].
  destruct (Qltb low_freq_cutoff f0) eqn:Eg; [discriminate |].
  apply Qltb_ge in Eg.
  assert (Hnz : ~ delta_f == 0).
  { intros H. rewrite H in Hd. exact (Qlt_irrefl _ Hd). }
  rewrite py_div_nonzero by exact Hnz. cbn [bind].
  assert (H0 : 0 <= low_freq_cutoff / delta_f).
  { apply Qdiv_nonneg; [| exact Hd].
    apply Qle_trans with f0; [| exact Eg]. now inversion Hnn. }
  rewrite (py_int_floor _ H0).
  set (kmin' := Qfloor (low_freq_cutoff / delta_f)).
  assert (Hk : (0 <= kmin')%Z).
  { subst kmin'. change 0%Z with (Qfloor 0). now apply Qfloor_resp_le. }
  set (ds := if Qeq_bool f0 low_freq_cutoff then 0%Z
             else (Z.of_nat (searchsorted (f0 :: t) (inject_Z kmin' * delta_f)) - 1)%Z).
  assert (Hds : (-1 <= ds)%Z) by (subst ds; destruct (Qeq_bool _ _); lia).
  destruct (py_index (f0 :: t) (ds + 1)) as [f1 | e] eqn:E1; [| discriminate].
  cbn [bind]. apply py_index_Ok_bounds in E1.
  set (ds' := if Qeq_bool f1 low_freq_cutoff then (ds + 1)%Z else ds).
  assert (Hds' : (-1 <= ds' < Z.of_nat (List.length (f0 :: t)))%Z)
    by (subst ds'; destruct (Qeq_bool f1 _); lia).
  intros [= <- <- <-].
  destruct (py_slice_from (f0 :: t) ds' ltac:(discriminate) Hds')
    as [j [Hj [Hsl Hjeq]]].
  assert (Hne : noise_data <> []) by (destruct noise_data; [discriminate Hlen | discriminate]).
  destruct (py_slice_from noise_data ds' Hne ltac:(rewrite Hlen; exact Hds'))
    as [j' [Hj' [Hsl' Hjeq']]].
  exists f0, t, j. repeat split; try assumption.
  rewrite Hsl', Hjeq', Hjeq, Hlen. reflexivity.
Qed.

(** When the trimming returns: the index of line 64 has to be in range. *)
Lemma trim_returns freq_data noise_data (delta_f low_freq_cutoff f0 : Q) (t : list Q) :
  0 < delta_f -> StronglySorted Qlt freq_data ->
  Forall (fun f => 0 <= f) freq_data ->
  freq_data = f0 :: t -> f0 <= low_freq_cutoff ->
  inject_Z (Qfloor (low_freq_cutoff / delta_f)) * delta_f <= last freq_data 0 ->
  (f0 == low_freq_cutoff -> (2 <= List.length freq_data)%nat) ->
  exists kmin freq' noise',
    trim freq_data noise_data delta_f low_freq_cutoff = Ok (kmin, freq', noise').
Proof.
  intros Hd Hs Hnn Hfreq Hle Hflow Htwo. unfold trim. rewrite Hfreq in *.
  rewrite py_index_0. cbn [bind].
  apply Qltb_ge in Hle. rewrite Hle. apply Qltb_ge in Hle.
  assert (Hnz : ~ delta_f == 0).
  { intros H. rewrite H in Hd. exact (Qlt_irrefl _ Hd). }
  rewrite py_div_nonzero by exact Hnz. cbn [bind].
  assert (H0 : 0 <= low_freq_cutoff / delta_f).
  { apply Qdiv_nonneg; [| exact Hd].
    apply Qle_trans with f0; [| exact Hle]. now inversion Hnn. }
  rewrite (py_int_floor _ H0).
  set (flow := inject_Z (Qfloor (low_freq_cutoff / delta_f)) * delta_f) in *.
  assert (Hidx : exists f1, py_index (f0 :: t)
                   ((if Qeq_bool f0 low_freq_cutoff then 0
                     else Z.of_nat (searchsorted (f0 :: t) flow) - 1) + 1)%Z = Ok f1).
  { destruct (Qeq_bool f0 low_freq_cutoff) eqn:Eq.
    - apply Qeq_bool_iff in Eq. specialize (Htwo Eq).
      destruct (py_index_in_range (f0 :: t) 1 ltac:(lia)) as [x [Hx _]]. eauto.
    - destruct (searchsorted_spec (f0 :: t) flow Hs) as [Hr [_ Habove]].
      replace (Z.of_nat (searchsorted (f0 :: t) flow) - 1 + 1)%Z
        with (Z.of_nat (searchsorted (f0 :: t) flow)) by lia.
      destruct (Nat.eq_dec (searchsorted (f0 :: t) flow) (List.length (f0 :: t)))
        as [Hfull | Hnot].
      + exfalso.
        destruct (searchsorted_spec (f0 :: t) flow Hs) as [_ [Hbelow _]].
        pose proof (nth_error_last (f0 :: t) 0 ltac:(discriminate)) as Hlast.
        apply Hbelow in Hlast; [| rewrite Hfull; simpl; lia].
        exact (Qlt_not_le _ _ Hlast Hflow).
      + destruct (py_index_in_range (f0 :: t) (searchsorted (f0 :: t) flow)
                    ltac:(lia)) as [x [Hx _]]. eauto. }
  destruct Hidx as [f1 Hf1]. rewrite Hf1. cbn [bind]. eauto.
Qed.

(** The errors of the trimming. *)
Lemma trim_Err freq_data noise_data (delta_f low_freq_cutoff f0 : Q) (t : list Q)
      (e : exn) :
  0 < delta_f -> freq_data = f0 :: t ->
  trim freq_data noise_data delta_f low_freq_cutoff = Err e ->
  (e = ValueError (LowestFrequencyAboveCutoff low_freq_cutoff) /\
   low_freq_cutoff < f0) \/
  (e = IndexError /\ f0 <= low_freq_cutoff).
Proof.
  intros Hd -> . unfold trim. rewrite py_index_0. cbn [bind].
  destruct (Qltb low_freq_cutoff f0) eqn:Eg.
  - apply Qltb_lt in Eg. intros [= <-]. auto.
  - apply Qltb_ge in Eg.
    assert (Hnz : ~ delta_f == 0).
    { intros H. rewrite H in Hd. exact (Qlt_irrefl _ Hd). }
    rewrite py_div_nonzero by exact Hnz. cbn [bind].
    match goal with |- context [py_index (f0 :: t) ?i] =>
      destruct (py_index (f0 :: t) i) as [f1 | e1] eqn:E1 end;
      cbn [bind]; [discriminate |].
    intros [= <-]. right. split; [| exact Eg].
    unfold py_index in E1.
    destruct (_ || _); [congruence |].
    destruct (nth_error _ _); congruence.
Qed.

End Trim.

Lemma Qfloor_plus_1 (x : Q) : Qfloor (x + 1) = (Qfloor x + 1)%Z.
Proof.
  destruct x as [n d]. unfold Qfloor, Qplus. cbn [Qnum Qden].
  rewrite Pos.mul_1_r, Z.mul_1_r.
  apply Z.div_add. discriminate.
Qed.

Lemma length_np_arange (lo hi : Z) :
  List.length (np_arange lo hi) = Z.to_nat (hi - lo).
Proof. unfold np_arange. now rewrite length_map, length_seq. Qed.

Lemma length_np_assign {A : Type} (l l' src : list A) (lo : Z) (hi : option Z) :
  np_assign l lo hi src = Ok l' -> List.length l' = List.length l.
Proof.
  unfold np_assign.
  destruct (slice_bounds (List.length l) lo hi) as [a room] eqn:Eb.
  assert (Hb : (a + room <= List.length l)%nat).
  { unfold slice_bounds in Eb. injection Eb as <- <-.
    pose proof (slice_pos_le (List.length l) lo).
    destruct hi as [h |]; [pose proof (slice_pos_le (List.length l) h) |]; lia. }
  destruct (Nat.eqb (List.length src) room) eqn:E.
  - apply Nat.eqb_eq in E. intros [= <-].
    rewrite !length_app, length_firstn, length_skipn. lia.
  - destruct src as [| v [| w src]]; try discriminate.
    intros [= <-]. apply length_np_fill.
Qed.

(** A slice assignment leaves the bins before the slice as they were. *)
Lemma nth_error_np_assign_before {A : Type} (l l' src : list A) (lo : Z)
      (hi : option Z) (i : nat) :
  np_assign l lo hi src = Ok l' -> (i < slice_pos (List.length l) lo)%nat ->
  nth_error l' i = nth_error l i.
Proof.
  unfold np_assign, np_fill, slice_bounds. intros H Hi.
  pose proof (slice_pos_le (List.length l) lo) as Hle.
  assert (Hpre : nth_error (firstn (slice_pos (List.length l) lo) l) i = nth_error l i).
  { rewrite nth_error_firstn. now rewrite (proj2 (Nat.ltb_lt _ _) Hi). }
  destruct (Nat.eqb _ _).
  - injection H as <-. rewrite nth_error_app1 by (rewrite length_firstn; lia).
    exact Hpre.
  - destruct src as [| v [| w src]]; try discriminate.
    injection H as <-. rewrite nth_error_app1 by (rewrite length_firstn; lia).
    exact Hpre.
Qed.

(** Lines 70-76. *)
Lemma adjust_length_spec (freq_data : list Q) (length : Z) (delta_f : Q) :
  freq_data <> [] -> 0 < delta_f -> 0 <= last freq_data 0 ->
  let fmax := last freq_data 0 in
  let requested := inject_Z (length - 1) * delta_f in
  (fmax < requested ->
   adjust_length freq_data length delta_f =
   Ok ([SamplesExceedAvailable requested fmax], (Qfloor (fmax / delta_f) + 1)%Z) /\
   (0 < Qfloor (fmax / delta_f) + 1 < length)%Z) /\
  (requested <= fmax ->
   adjust_length freq_data length delta_f = Ok ([], length)).
Proof.
  intros Hne Hd Hpos fmax requested. unfold adjust_length.
  rewrite (py_index_last freq_data 0 Hne). cbn [bind]. fold fmax requested.
  assert (Hnz : ~ delta_f == 0).
  { intros H. rewrite H in Hd. exact (Qlt_irrefl _ Hd). }
  assert (Hq : 0 <= fmax / delta_f) by (apply Qdiv_nonneg; assumption).
  split.
  - intros Hlt. rewrite (proj2 (Qltb_lt _ _) Hlt).
    rewrite py_div_nonzero by exact Hnz. cbn [bind].
    rewrite py_int_floor, Qfloor_plus_1.
    2:{ apply Qle_trans with (fmax / delta_f); [exact Hq |].
        rewrite <- (Qplus_0_r (fmax / delta_f)) at 1.
        apply Qplus_le_r. discriminate. }
    split; [reflexivity |].
    assert (H0 : (0 <= Qfloor (fmax / delta_f))%Z).
    { change 0%Z with (Qfloor 0). now apply Qfloor_resp_le. }
    split; [lia |].
    assert (Hfl : inject_Z (Qfloor (fmax / delta_f)) < inject_Z (length - 1)).
    { apply Qle_lt_trans with (fmax / delta_f); [apply Qfloor_le |].
      apply Qlt_shift_div_r; assumption. }
    rewrite <- Zlt_Qlt in Hfl. lia.
  - intros Hle. now rewrite (proj2 (Qltb_ge _ _) Hle).
Qed.

Lemma py_index_map_0 {A B : Type} (f : A -> B) (l : list A) :
  l <> [] -> exists x, py_index (map f l) 0 = Ok x.
Proof. destruct l as [| a l]; [contradiction |]. simpl map. rewrite py_index_0. eauto. Qed.

(** Lines 78-88 on a table of equally long, non-empty columns. *)
Lemma interpolate_bins_returns (freq_data : list Q) (noise_data : list xreal)
      (kmin length : Z) (delta_f : Q) :
  freq_data <> [] -> List.length noise_data = List.length freq_data ->
  (0 <= kmin)%Z -> (0 <= length)%Z ->
  exists s,
    interpolate_bins freq_data noise_data kmin length delta_f = Ok s /\
    Read.delta_f s = delta_f /\
    List.length (data s) = Z.to_nat length.
Proof.
  intros Hne Hlen Hk Hl. unfold interpolate_bins.
  assert (Hnn : noise_data <> []) by (destruct noise_data, freq_data; try discriminate; congruence).
  destruct (py_index_map_0 np_log noise_data Hnn) as [s0 ->]. cbn [bind].
  rewrite (py_index_last (map np_log noise_data) XNaN)
    by (destruct noise_data; [contradiction | discriminate]).
  cbn [bind]. unfold interp1d. rewrite !length_map, Hlen, Nat.eqb_refl.
  destruct (List.length freq_data =? 0)%nat eqn:E0.
  { apply Nat.eqb_eq in E0. destruct freq_data; [contradiction | discriminate]. }
  cbn [negb orb bind]. unfold np_zeros.
  destruct (length <? 0)%Z eqn:El; [apply Z.ltb_lt in El; lia |]. cbn [bind].
  match goal with |- context [np_assign ?l ?lo ?hi ?src] =>
    destruct (np_assign l lo hi src) as [psd | e] eqn:Ea end.
  - cbn [bind]. eexists. split; [reflexivity |]. split; [reflexivity |].
    cbn [data]. apply length_np_assign in Ea. now rewrite Ea, repeat_length.
  - exfalso. unfold np_assign, slice_bounds in Ea.
    rewrite repeat_length, !length_map, length_np_arange in Ea.
    rewrite (slice_pos_nonneg _ _ Hk) in Ea.
    replace (Z.to_nat (length - kmin))
      with (Z.to_nat length - Nat.min (Z.to_nat kmin) (Z.to_nat length))%nat in Ea by lia.
    rewrite Nat.eqb_refl in Ea. discriminate.
Qed.

(** Lines 78-88, whatever the table: a series that is returned has the
    resolution asked for, and its bins before [kmin] are zero. *)
Lemma interpolate_bins_zero (freq_data : list Q) (noise_data : list xreal)
      (kmin length : Z) (delta_f : Q) (s : FrequencySeries xreal) :
  interpolate_bins freq_data noise_data kmin length delta_f = Ok s ->
  Read.delta_f s = delta_f /\
  forall i, (Z.of_nat i < kmin)%Z -> (i < List.length (data s))%nat ->
            nth_error (data s) i = Some (XFin 0).
Proof.
  unfold interpolate_bins. intros H.
  destruct (py_index (map np_log noise_data) 0); [| discriminate]. cbn [bind] in H.
  destruct (py_index (map np_log noise_data) (-1)); [| discriminate]. cbn [bind] in H.
  destruct (interp1d _ _ _ _) as [psd_interp |]; [| discriminate]. cbn [bind] in H.
  unfold np_zeros in H. destruct (length <? 0)%Z; [discriminate |]. cbn [bind] in H.
  match type of H with context [np_assign ?l ?lo ?hi ?src] =>
    destruct (np_assign l lo hi src) as [psd | e] eqn:Ea end; [| discriminate].
  cbn [bind] in H. injection H as <-. cbn [data Read.delta_f].
  split; [reflexivity |]. intros i Hi Hlt.
  pose proof (length_np_assign _ _ _ _ _ Ea) as Hlen. rewrite repeat_length in Hlen.
  rewrite (nth_error_np_assign_before _ _ _ _ _ i Ea).
  - apply nth_error_repeat. lia.
  - rewrite repeat_length, slice_pos_nonneg by lia. lia.
Qed.

Lemma trim_kmin {A : Type} (freq_data : list Q) (noise_data : list A)
      (delta_f low_freq_cutoff : Q) (kmin : Z) freq' noise' :
  trim freq_data noise_data delta_f low_freq_cutoff = Ok (kmin, freq', noise') ->
  kmin = py_int (low_freq_cutoff / delta_f).
Proof.
  unfold trim.
  destruct (py_index freq_data 0); [| discriminate]. cbn [bind].
  destruct (Qltb _ _); [discriminate |].
  unfold py_div. destruct (Qeq_bool delta_f 0); [discriminate |]. cbn [bind].
  destruct (py_index freq_data _); [| discriminate]. cbn [bind].
  now intros [= <- _ _].
Qed.

Lemma StronglySorted_last_max (l : list Q) :
  StronglySorted Qlt l -> Forall (fun f => f <= last l 0) l.
Proof.
  intros Hs. apply Forall_forall. intros x Hx.
  destruct l as [| a l]; [contradiction |].
  apply In_nth_error in Hx. destruct Hx as [i Hi].
  pose proof (nth_error_last (a :: l) 0 ltac:(discriminate)) as Hlast.
  assert (Hlen : (i < List.length (a :: l))%nat) by (apply nth_error_Some; congruence).
  destruct (Nat.eq_dec i (List.length (a :: l) - 1)) as [-> | Hne].
  - rewrite Hlast in Hi. injection Hi as <-. apply Qle_refl.
  - apply Qlt_le_weak.
    apply (StronglySorted_nth_error _ Hs i (List.length (a :: l) - 1)); auto. lia.
Qed.

Lemma last_In_nonneg (l : list Q) :
  l <> [] -> Forall (fun f => 0 <= f) l -> 0 <= last l 0.
Proof.
  intros Hne Hall. rewrite Forall_forall in Hall. apply Hall.
  pose proof (nth_error_last l 0 Hne) as H. eapply nth_error_In; eauto.
Qed.

(** On a valid input, once the trimming has returned, the call returns: the
    warning logged, the resolution and the length of the series. *)
Lemma from_numpy_arrays_returns (freq_data : list Q) (noise_data : list xreal)
      (length : Z) (delta_f low_freq_cutoff : Q)
      (kmin : Z) (freq' : list Q) (noise' : list xreal) :
  valid_input freq_data noise_data length delta_f ->
  trim freq_data noise_data delta_f low_freq_cutoff = Ok (kmin, freq', noise') ->
  let fmax := last freq_data 0 in
  let requested := inject_Z (length - 1) * delta_f in
  exists s,
    from_numpy_arrays freq_data noise_data length delta_f low_freq_cutoff =
    (if Qltb fmax requested then [SamplesExceedAvailable requested fmax] else [],
     Ok s) /\
    Read.delta_f s = delta_f /\
    Z.of_nat (List.length (data s)) =
    (if Qltb fmax requested then Qfloor (fmax / delta_f) + 1 else length)%Z /\
    (Qltb fmax requested = true -> (Qfloor (fmax / delta_f) + 1 < length)%Z).
Proof.
  intros (Hne & Hs & Hnn & Hlen & Hl & Hd) Htrim fmax requested.
  unfold from_numpy_arrays. rewrite Htrim.
  destruct (trim_Ok _ _ _ _ _ _ _ Hd Hnn Hlen Htrim)
    as (f0 & t & j & Hfreq & Hle & Hk & Hk0 & Hj & Hf' & Hn').
  assert (Hne' : freq' <> []) by (rewrite Hf'; now apply skipn_nonempty).
  assert (Hlast : last freq' 0 = fmax) by (rewrite Hf'; now apply last_skipn).
  assert (Hpos : 0 <= last freq' 0)
    by (rewrite Hlast; now apply last_In_nonneg).
  assert (Hlen' : List.length noise' = List.length freq')
    by (rewrite Hf', Hn', !length_skipn; lia).
  destruct (adjust_length_spec freq' length delta_f Hne' Hd Hpos) as [Hshrink Hkeep].
  rewrite Hlast in Hshrink, Hkeep. fold fmax requested in Hshrink, Hkeep.
  destruct (Qltb fmax requested) eqn:E.
  - apply Qltb_lt in E. destruct (Hshrink E) as [-> Hbound].
    destruct (interpolate_bins_returns freq' noise' kmin
                (Qfloor (fmax / delta_f) + 1) delta_f Hne' Hlen' Hk0 ltac:(lia))
      as (s & -> & Hdf & Hdata).
    exists s. repeat split; auto; lia.
  - apply Qltb_ge in E. rewrite (Hkeep E).
    destruct (interpolate_bins_returns freq' noise' kmin length delta_f
                Hne' Hlen' Hk0 ltac:(lia)) as (s & -> & Hdf & Hdata).
    exists s. repeat split; auto; try lia; discriminate.
Qed.

(** C4.  Whatever the input, a series that [from_numpy_arrays] returns has
    the spacing [delta_f] and every bin of index strictly below
    [floor(low_freq_cutoff/delta_f)] equal to zero. *)
Theorem bins_below_cutoff_are_zero (freq_data : list Q) (noise_data : list xreal)
        (length : Z) (delta_f low_freq_cutoff : Q)
        (log : list log_record) (s : FrequencySeries xreal) :
  from_numpy_arrays freq_data noise_data length delta_f low_freq_cutoff =
  (log, Ok s) ->
  Read.delta_f s = delta_f /\
  forall i, (Z.of_nat i < Qfloor (low_freq_cutoff / delta_f))%Z ->
            (i < List.length (data s))%nat ->
            nth_error (data s) i = Some (XFin 0).
Proof.
  unfold from_numpy_arrays.
  destruct (trim freq_data noise_data delta_f low_freq_cutoff)
    as [[[kmin freq'] noise'] | e] eqn:Htrim; [| discriminate].
  destruct (adjust_length freq' length delta_f) as [[log' length'] | e];
    [| discriminate].
  intros [= _ Hrun]. apply interpolate_bins_zero in Hrun.
  destruct Hrun as [Hdf Hzero]. split; [exact Hdf |].
  intros i Hi Hlt. apply Hzero; [| exact Hlt].
  rewrite (trim_kmin _ _ _ _ _ _ _ Htrim).
  rewrite py_int_floor_nonneg; lia.
Qed.


Section TrimStart.
Context {A : Type}.



End TrimStart.



(** ** The selector *)

Section SelectorProperties.
Context {A : Type} (zero inf : A) {trunc_method : Type}.
Context (interpolate : FrequencySeries A -> Q -> result (FrequencySeries A)).
Context (inverse_spectrum_truncation :
           FrequencySeries A -> Z -> option Q -> option trunc_method ->
           result (FrequencySeries A)).
Implicit Types (self : PrecomputedTimeVaryingPSD A trunc_method).

#[local] Abbreviation get_psd := (get_psd zero inf interpolate).
#[local] Abbreviation best_of := (best_of zero inf interpolate).
#[local] Abbreviation truncate_inverse :=
  (truncate_inverse inverse_spectrum_truncation).
#[local] Abbreviation assosiate :=
  (assosiate_psd_to_inspiral_segment zero inf interpolate
                                     inverse_spectrum_truncation).

(** The series of lines 263-271, when the configured length differs from
    that of the series. *)
Lemma reconcile_length_differs self (psd : FrequencySeries A) (len : Z) :
  TimeVarying.length self = Some len -> (0 <= len)%Z ->
  len <> Z.of_nat (List.length (data psd)) ->
  reconcile_length zero inf self psd =
  Ok (mkFrequencySeries
        (if (Z.of_nat (List.length (data psd)) <? len)%Z
         then data psd ++ repeat inf (Z.to_nat len - List.length (data psd))
         else firstn (Z.to_nat len) (data psd))
        (Read.delta_f psd)).
Proof.
  intros Hlen Hpos Hne. unfold reconcile_length. rewrite Hlen.
  destruct (len =? _)%Z eqn:E; [apply Z.eqb_eq in E; contradiction |].
  simpl negb. cbv iota. unfold np_zeros.
  destruct (len <? 0)%Z eqn:E0; [apply Z.ltb_lt in E0; lia |].
  cbn [bind data Read.delta_f].
  destruct (Z.of_nat (List.length (data psd)) <? len)%Z eqn:E1.
  - apply Z.ltb_lt in E1.
    rewrite np_fill_all, repeat_length.
    rewrite np_assign_prefix by (rewrite repeat_length; lia).
    cbn [bind]. do 2 f_equal.
    rewrite skipn_repeat. reflexivity.
  - apply Z.ltb_ge in E1.
    rewrite py_slice_to by assumption.
    rewrite np_assign_all; [reflexivity |].
    rewrite length_firstn, repeat_length. lia.
Qed.



(** What the masking of lines 272-275 does to a series. *)
Lemma mask_low_frequencies_applies self (psd : FrequencySeries A) (fl : Q) :
  f_low self = Some fl -> fl < file_f_low self -> ~ Read.delta_f psd == 0 ->
  mask_low_frequencies inf self psd =
  Ok (mkFrequencySeries
        (np_fill (data psd) 0
                 (Some (py_int (file_f_low self / Read.delta_f psd))) inf)
        (Read.delta_f psd)).
Proof.
  intros Hf Hlt Hd. unfold mask_low_frequencies. rewrite Hf.
  apply Qltb_lt in Hlt. rewrite Hlt.
  rewrite py_div_nonzero by exact Hd. reflexivity.
Qed.

Lemma mask_low_frequencies_skipped self (psd : FrequencySeries A) :
  (forall fl, f_low self = Some fl -> file_f_low self <= fl) ->
  mask_low_frequencies inf self psd = Ok psd.
Proof.
  intros H. unfold mask_low_frequencies.
  destruct (f_low self) as [fl |]; [| reflexivity].
  specialize (H fl eq_refl). apply Qltb_ge in H. now rewrite H.
Qed.

(** C7.  When the configured low-frequency cutoff is strictly below the one
    recorded in the file, [get_psd] returns the series it has loaded,
    resampled and brought to length with every bin of index strictly below
    [floor(file_f_low / delta_f)] equal to [+infinity], [delta_f] being the
    resolution of that series, which the result keeps together with the
    length; when the configured cutoff is not below the cutoff of the file,
    [get_psd] returns that series unmasked. *)
Theorem low_frequency_mask self (index : nat) (delta_f : option Q)
  (psd : FrequencySeries A) (fl : Q) :
  (p <- load_at_resolution interpolate self index delta_f ;;
   reconcile_length zero inf self p) = Ok psd ->
  f_low self = Some fl ->
  (fl < file_f_low self -> ~ Read.delta_f psd == 0 ->
   exists s,
     get_psd self index delta_f = Ok s /\
     Read.delta_f s = Read.delta_f psd /\
     List.length (data s) = List.length (data psd) /\
     forall i, (i < List.length (data s))%nat ->
               (Z.of_nat i < Qfloor (file_f_low self / Read.delta_f s))%Z ->
               nth_error (data s) i = Some inf) /\
  (file_f_low self <= fl -> get_psd self index delta_f = Ok psd).
Proof.
  intros Hpre Hf. unfold TimeVarying.get_psd.
  destruct (load_at_resolution interpolate self index delta_f) as [p | e];
    [| discriminate].
  cbn [bind] in *. rewrite Hpre. cbn [bind]. split.
  - intros Hlt Hd.
    rewrite (mask_low_frequencies_applies self psd fl Hf Hlt Hd).
    eexists. split; [reflexivity |]. cbn [data Read.delta_f].
    split; [reflexivity |]. split; [apply length_np_fill |].
    intros i Hi Hk. rewrite length_np_fill in Hi.
    assert (Hfl : (0 <= Qfloor (file_f_low self / Read.delta_f psd))%Z) by lia.
    rewrite (py_int_floor_nonneg _ Hfl).
    rewrite nth_error_np_fill_to by assumption.
    apply Z.ltb_lt in Hk. now rewrite Hk.
  - intros Hge. apply mask_low_frequencies_skipped.
    intros fl' Hf'. rewrite Hf in Hf'. now injection Hf' as <-.
Qed.


(** The collaborators raise errors of their own, not the range error of the
    selector. *)
Hypothesis interpolate_own_errors :
  forall p d, not_range_error (interpolate p d).
Hypothesis truncation_own_errors :
  forall p n f m, not_range_error (inverse_spectrum_truncation p n f m).

Lemma not_range_error_get_psd self i d : not_range_error (get_psd self i d).
Proof.
  unfold TimeVarying.get_psd, load_at_resolution, load_frequencyseries,
    reconcile_length, mask_low_frequencies, np_zeros, py_div.
  repeat range_step.
Qed.

Lemma not_range_error_best_of self seg d sidx :
  not_range_error (best_of self seg d sidx).
Proof.
  pose proof not_range_error_get_psd.
  unfold TimeVarying.best_of.
  repeat range_step.
Qed.

Lemma not_range_error_selection self seg d :
  not_range_error
    (sidx <- candidates self seg ;;
     best_psd <- best_of self seg d sidx ;;
     truncate_inverse self best_psd).
Proof.
  pose proof not_range_error_best_of.
  unfold candidates, argpartition, TimeVarying.truncate_inverse.
  repeat range_step.
Qed.

(** C8.  On a selector built by [__init__], the call raises the [ValueError]
    whose message gives the range of the store exactly when the segment ends
    before the earliest start time or begins after the latest end time; the
    range in the message is [min(start_times)], [max(end_times)]. *)
Theorem range_error_iff_segment_outside_store
  (opt : options A trunc_method) (len : option Z) (df sr : Q) self
  (inp_seg : segment) (delta_f : option Q) :
  init opt len df sr = Ok self ->
  exists b e,
    (In b (start_time (precomputed_psd_file opt)) /\
     Forall (fun t => b <= t) (start_time (precomputed_psd_file opt))) /\
    (In e (end_time (precomputed_psd_file opt)) /\
     Forall (fun t => t <= e) (end_time (precomputed_psd_file opt))) /\
    ((snd inp_seg < b \/ e < fst inp_seg) <->
     assosiate self inp_seg delta_f = Err (ValueError (SegmentOutsideStore b e))) /\
    (forall b' e',
        assosiate self inp_seg delta_f = Err (ValueError (SegmentOutsideStore b' e')) ->
        snd inp_seg < b \/ e < fst inp_seg).
Proof.
  unfold init. intros Hinit.
  destruct (np_min _) as [b |] eqn:Hb; [| discriminate].
  destruct (np_max _) as [e |] eqn:He; [| discriminate].
  simpl in Hinit. injection Hinit as <-.
  exists b, e. split; [now apply np_min_spec |]. split; [now apply np_max_spec |].
  unfold assosiate_psd_to_inspiral_segment; simpl.
  pose proof (not_range_error_selection
                {| opt := opt; file_name := precomputed_psd_file opt;
                   f_low := low_frequency_cutoff opt; length := len;
                   delta_f := df; sample_rate := sr;
                   psd_inverse_length := opt_psd_inverse_length opt;
                   invpsd_trunc_method := opt_invpsd_trunc_method opt;
                   start_times := start_time (precomputed_psd_file opt);
                   end_times := end_time (precomputed_psd_file opt);
                   file_f_low := low_frequency_cutoff_attr (precomputed_psd_file opt);
                   begin_ := b; end_ := e |} inp_seg delta_f) as Hsel.
  destruct (Qltb e (fst inp_seg)) eqn:E1; simpl.
  - apply Qltb_lt in E1. split; [tauto | auto].
  - destruct (Qltb (snd inp_seg) b) eqn:E2.
    + apply Qltb_lt in E2. split; [tauto | auto].
    + apply Qltb_ge in E1, E2. split; [split |].
      * intros [H | H]; exfalso; eapply Qlt_not_le; eauto.
      * intros H. exfalso. exact (Hsel _ _ H).
      * intros b' e' H. exfalso. exact (Hsel _ _ H).
Qed.


(** C10, amended.  On a store of fewer than three entries every call fails:
    with the range error when the segment lies outside the store, and with
    the out-of-bounds error of [numpy.argpartition] (kth = 2) otherwise. *)
Theorem short_store_every_call_fails self (inp_seg : segment) (delta_f : option Q) :
  (List.length (start_times self) < 3)%nat ->
  ((end_ self < fst inp_seg \/ snd inp_seg < begin_ self) ->
   assosiate self inp_seg delta_f =
   Err (ValueError (SegmentOutsideStore (begin_ self) (end_ self)))) /\
  ((fst inp_seg <= end_ self /\ begin_ self <= snd inp_seg) ->
   assosiate self inp_seg delta_f =
   Err (ValueError (KthOutOfBounds 2 (List.length (start_times self))))).
Proof.
  intros Hn. unfold assosiate_psd_to_inspiral_segment. split.
  - intros H.
    assert (Hb : Qltb (end_ self) (fst inp_seg) || Qltb (snd inp_seg) (begin_ self) = true).
    { apply orb_true_iff. rewrite !Qltb_lt. exact H. }
    now rewrite Hb.
  - intros [H1 H2].
    apply Qltb_ge in H1, H2. rewrite H1, H2. simpl.
    unfold candidates, argpartition. rewrite length_map.
    destruct (List.length (start_times self) <=? 2)%nat eqn:E; [reflexivity |].
    apply Nat.leb_gt in E. lia.
Qed.


End SelectorProperties.

(** ** Instances on the examples *)

Import Examples.

(** C9.  The samples 0, 1, 2, 3 Hz are on the grid of the output
    ([delta_f = 1]) and cover the four bins asked for; the cutoff 0.5 lies
    between the first two of them.  [data_start] is then [-1], only the last
    sample is retained, and every bin from [kmin = 0] on gets its value 4:
    the bins 1 and 2 do not reproduce the values 2 and 3 that the input has
    at 1 and 2 Hz, above the cutoff. *)
Example resampling_on_grid_not_reproduced :
  from_numpy_arrays full_grid_freq grid_noise 4 1 (1 # 2) =
  ([], Ok (mkFrequencySeries [XFin 4; XFin 4; XFin 4; XFin 4] 1)).
Proof.
  unfold from_numpy_arrays, full_grid_freq, grid_noise.
  replace (trim [0; 1; 2; 3] [XFin 1; XFin 2; XFin 3; XFin 4] 1 (1 # 2))
    with (Ok (0%Z, [3], [XFin 4])) by reflexivity.
  replace (adjust_length [3] 4 1) with (Ok ([] : list log_record, 4%Z)) by reflexivity.
  f_equal. unfold interpolate_bins.
  cbn [map].
  change (of_Q 3) with (of_Q (inject_Z 3)).
  rewrite of_Q_inject_Z, !np_log_pos by lra.
  rewrite py_index_0. cbn [bind].
  replace (py_index [XFin (ln 4)] (-1)) with (Ok (XFin (ln 4))) by reflexivity.
  cbn [bind].
  replace (interp1d [XFin (ln 3)] [XFin (ln 4)] (XFin (ln 4)) (XFin (ln 4)))
    with (Ok (fun x_new =>
                if xlt (XFin (ln 3)) x_new then XFin (ln 4)
                else if xlt x_new (XFin (ln 3)) then XFin (ln 4)
                else np_interp [XFin (ln 3)] [XFin (ln 4)] x_new))
    by reflexivity.
  cbn [bind].
  replace (np_zeros (XFin 0) 4) with (Ok (repeat (XFin 0) 4)) by reflexivity.
  cbn [bind].
  replace (np_arange 0 4) with [0; 1; 2; 3]%Z by reflexivity.
  cbn [map]. rewrite !of_Q_bin, np_log_zero, !np_log_pos by lra.
  cbn [xlt].
  rewrite !(Rltb_ln_false 3) by lra.
  rewrite !(Rltb_ln_true _ 3) by lra.
  unfold np_interp. cbn [List.length Nat.eqb at_ nth xlt].
  rewrite (Rltb_ln_false 3 3) by lra.
  cbn [np_exp]. rewrite exp_ln by lra.
  reflexivity.
Qed.

(** The same on the spectrum that starts at 10 Hz, with the cutoff 10.5:
    the bins from [kmin = 10] on all get the last value. *)
Example resampling_from_ten_not_reproduced :
  from_numpy_arrays grid_freq grid_noise 14 1 (21 # 2) =
  ([], Ok (mkFrequencySeries
             (repeat (XFin 0) 10 ++ [XFin 4; XFin 4; XFin 4; XFin 4]) 1)).
Proof.
  unfold from_numpy_arrays, grid_freq, grid_noise.
  replace (trim [10; 11; 12; 13] [XFin 1; XFin 2; XFin 3; XFin 4] 1 (21 # 2))
    with (Ok (10%Z, [13], [XFin 4])) by reflexivity.
  replace (adjust_length [13] 14 1) with (Ok ([] : list log_record, 14%Z)) by reflexivity.
  f_equal. unfold interpolate_bins.
  cbn [map].
  change (of_Q 13) with (of_Q (inject_Z 13)).
  rewrite of_Q_inject_Z, !np_log_pos by lra.
  rewrite py_index_0. cbn [bind].
  replace (py_index [XFin (ln 4)] (-1)) with (Ok (XFin (ln 4))) by reflexivity.
  cbn [bind].
  replace (interp1d [XFin (ln 13)] [XFin (ln 4)] (XFin (ln 4)) (XFin (ln 4)))
    with (Ok (fun x_new =>
                if xlt (XFin (ln 13)) x_new then XFin (ln 4)
                else if xlt x_new (XFin (ln 13)) then XFin (ln 4)
                else np_interp [XFin (ln 13)] [XFin (ln 4)] x_new))
    by reflexivity.
  cbn [bind].
  replace (np_zeros (XFin 0) 14) with (Ok (repeat (XFin 0) 14)) by reflexivity.
  cbn [bind].
  replace (np_arange 10 14) with [10; 11; 12; 13]%Z by reflexivity.
  cbn [map]. rewrite !of_Q_bin, !np_log_pos by lra.
  rewrite !xlt_fin.
  rewrite !(Rltb_ln_false 13) by lra.
  rewrite !(Rltb_ln_true _ 13) by lra.
  unfold np_interp. cbn [List.length Nat.eqb at_ nth]. rewrite !xlt_fin.
  rewrite (Rltb_ln_false 13 13) by lra.
  cbn [np_exp]. rewrite exp_ln by lra.
  reflexivity.
Qed.

(** The example spectrum is a valid input. *)
Lemma grid_valid (length : Z) : (1 <= length)%Z -> valid_input grid_freq grid_noise length 1.
Proof.
  intros Hl. unfold valid_input, grid_freq, grid_noise.
  split; [discriminate |]. split; [repeat constructor |].
  split; [repeat constructor; discriminate |].
  split; [reflexivity |]. split; [exact Hl | reflexivity].
Qed.

(** C2.  The first sample 10 is at [flow = 10] and below the cutoff 10.5:
    [data_start] is [-1] and the slice [[-1:]] retains the last sample only,
    not the data from the sample at or just before [flow] on. *)
Example trim_wraps_to_last_sample :
  trim grid_freq grid_noise 1 (21 # 2) = Ok (10%Z, [13], [XFin 4]).
Proof. reflexivity. Qed.

(** C3.  A valid input whose requested highest frequency
    [(length-1)*delta_f = 99] exceeds the last frequency 30, and whose cutoff
    35 lies above that frequency: [searchsorted] returns the length of the
    array, the index [freq_data[data_start+1]] of line 64 is out of range,
    and the call raises an [IndexError] before lines 70-76 are reached: no
    warning is logged and no series of reduced length is returned. *)
Example shrinking_call_raises :
  valid_input [10; 20; 30] [XFin 1; XFin 1; XFin 1] 100 1 /\
  10 <= 35 /\ 30 < inject_Z (100 - 1) * 1 /\
  from_numpy_arrays [10; 20; 30] [XFin 1; XFin 1; XFin 1] 100 1 35 =
  ([], Err IndexError).
Proof.
  split; [| split; [discriminate | split; [reflexivity | reflexivity]]].
  unfold valid_input.
  split; [discriminate |]. split; [repeat constructor |].
  split; [repeat constructor; discriminate |].
  split; [reflexivity |]. split; [lia | reflexivity].
Qed.

(** C4: an instance. *)
Lemma bins_below_cutoff_are_zero_witness :
  exists log s,
    from_numpy_arrays grid_freq grid_noise 14 1 10 = (log, Ok s) /\
    Read.delta_f s = 1 /\
    forall i, (Z.of_nat i < Qfloor (10 / 1))%Z ->
              (i < List.length (data s))%nat ->
              nth_error (data s) i = Some (XFin 0).
Proof.
  destruct (from_numpy_arrays_returns grid_freq grid_noise 14 1 10
              10%Z [10; 11; 12; 13] grid_noise (grid_valid 14 ltac:(lia)) eq_refl)
    as (s & Hrun & _).
  eexists. exists s. split; [exact Hrun |].
  exact (bins_below_cutoff_are_zero grid_freq grid_noise 14 1 10 _ s Hrun).
Defined.

(** C5.  A valid input with [freq_data[0] = 10 <= low_freq_cutoff = 40] on
    which the call raises: the cutoff lies above the last frequency,
    [searchsorted] returns the length of the array, and the index
    [freq_data[data_start+1]] of line 64, which nothing guards, is out of
    range: an [IndexError], where no error is to be raised. *)
Example cutoff_above_data_raises :
  valid_input [10; 20; 30] [XFin 1; XFin 1; XFin 1] 5 1 /\ 10 <= 40 /\
  snd (from_numpy_arrays [10; 20; 30] [XFin 1; XFin 1; XFin 1] 5 1 40) =
  Err IndexError.
Proof.
  split; [| split; [discriminate | reflexivity]].
  unfold valid_input.
  split; [discriminate |]. split; [repeat constructor |].
  split; [repeat constructor; discriminate |].
  split; [reflexivity |]. split; [lia | reflexivity].
Qed.

(** The error of line 54, on the example of the specification. *)
Lemma guard_example :
  from_numpy_arrays [10; 20; 30] [XFin 1; XFin 1; XFin 1] 4 1 5 =
  ([], Err (ValueError (LowestFrequencyAboveCutoff 5))).
Proof. reflexivity. Qed.


(** The start of that instance: the sample at 11 Hz, the last one below
    [flow = 12]. *)
Lemma trim_example :
  trim grid_freq grid_noise 1 (25 # 2) =
  Ok (12%Z, [11; 12; 13], [XFin 2; XFin 3; XFin 4]).
Proof. reflexivity. Qed.


(** The selectors of the examples are those [__init__] builds. *)
Lemma init_three_psds :
  init (options_of three_psds (Some 1)) (Some 6%Z) 1 4096 =
  Ok (selector_on three_psds (Some 1) (Some 6%Z) 0 300).
Proof. reflexivity. Qed.



(** C7: an instance. *)
Lemma low_frequency_mask_witness :
  exists s,
    run_get_psd (selector_on three_psds (Some 1) (Some 6%Z) 0 300) 0 = Ok s /\
    Read.delta_f s = 1 /\
    List.length (data s) = 6%nat /\
    forall i, (i < List.length (data s))%nat ->
              (Z.of_nat i < Qfloor (2 / Read.delta_f s))%Z ->
              nth_error (data s) i = Some XPInf.
Proof.
  refine (proj1 (low_frequency_mask (XFin 0) XPInf keep_resolution
                   (selector_on three_psds (Some 1) (Some 6%Z) 0 300) 0 None
                   (series [XFin 1; XFin 2; XFin 3; XFin 4; XPInf; XPInf]) 1
                   _ _) _ _).
  - reflexivity.
  - reflexivity.
  - reflexivity.
  - discriminate.
Defined.

(** C8: an instance, for a segment after the last end time. *)
Lemma range_error_witness :
  exists b e,
    (In b [0; 100; 200] /\ Forall (fun t => b <= t) [0; 100; 200]) /\
    (In e [100; 200; 300] /\ Forall (fun t => t <= e) [100; 200; 300]) /\
    ((350 < b \/ e < 301) <->
     run_selector (selector_on three_psds (Some 1) (Some 6%Z) 0 300) (301, 350) =
     Err (ValueError (SegmentOutsideStore b e))) /\
    (forall b' e',
        run_selector (selector_on three_psds (Some 1) (Some 6%Z) 0 300) (301, 350) =
        Err (ValueError (SegmentOutsideStore b' e')) ->
        350 < b \/ e < 301).
Proof.
  apply (range_error_iff_segment_outside_store (XFin 0) XPInf keep_resolution
           keep_spectrum
           (fun p d b e => ltac:(discriminate))
           (fun p n f m b e => ltac:(discriminate))
           (options_of three_psds (Some 1)) (Some 6%Z) 1 4096
           (selector_on three_psds (Some 1) (Some 6%Z) 0 300) (301, 350) None).
  reflexivity.
Defined.

(** The range error of that instance. *)
Lemma range_error_raised :
  run_selector (selector_on three_psds (Some 1) (Some 6%Z) 0 300) (301, 350) =
  Err (ValueError (SegmentOutsideStore 0 300)).
Proof. reflexivity. Qed.

(** C10, amended: an instance, for a segment inside a store of two. *)
Lemma short_store_witness :
  ((200 < 50 \/ 150 < 0) ->
   run_selector (selector_on two_psds (Some 1) None 0 200) (50, 150) =
   Err (ValueError (SegmentOutsideStore 0 200))) /\
  ((50 <= 200 /\ 0 <= 150) ->
   run_selector (selector_on two_psds (Some 1) None 0 200) (50, 150) =
   Err (ValueError (KthOutOfBounds 2 2))).
Proof.
  apply (short_store_every_call_fails (XFin 0) XPInf keep_resolution keep_spectrum
           (selector_on two_psds (Some 1) None 0 200) (50, 150) None).
  simpl. lia.
Defined.

(** C10, counterexample.  On a store of two entries a call for a segment
    after the store fails with the range error, not with the out-of-bounds
    error of [numpy.argpartition]. *)
Lemma short_store_range_error_first :
  init (options_of two_psds (Some 1)) None 1 4096 =
  Ok (selector_on two_psds (Some 1) None 0 200) /\
  run_selector (selector_on two_psds (Some 1) None 0 200) (300, 400) =
  Err (ValueError (SegmentOutsideStore 0 200)).
Proof. split; reflexivity. Qed.


(** On that tie the series returned is the first one, brought to length and
    masked. *)
Lemma tie_keeps_first :
  overlap_duration (mk_segment 0 100) (50, 150) == 50 /\
  overlap_duration (mk_segment 100 200) (50, 150) == 50 /\
  run_selector (selector_on three_psds (Some 1) (Some 6%Z) 0 300) (50, 150) =
  Ok (series [XPInf; XPInf; XFin 3; XFin 4; XPInf; XPInf]).
Proof. repeat split. Qed.

(** * Further properties *)

(** ** The interpolant between its nodes *)

Lemma xle_total (a b : xreal) :
  is_nan a = false -> is_nan b = false -> xlt b a = false -> xle a b = true.
Proof.
  unfold xle. destruct a, b; simpl; intros Ha Hb H; try discriminate; try reflexivity.
  unfold Rltb, Reqb in *. destruct (Rlt_dec r0 r); [discriminate |].
  destruct (Rlt_dec r r0); [reflexivity |].
  destruct (Req_dec_T r r0); [reflexivity | exfalso; lra].
Qed.

Lemma xle_cases (a b : xreal) :
  xle a b = true -> xlt a b = true \/ a = b.
Proof.
  unfold xle. intros H. apply orb_true_iff in H.
  destruct H as [H | H]; [now left | right; now apply xeq_eq].
Qed.

Lemma xle_monotone (xs : list xreal) (x : xreal) :
  increasing_table xs ->
  forall i j a b, (i <= j)%nat -> nth_error xs i = Some a ->
                  nth_error xs j = Some b -> xle b x = true -> xle a x = true.
Proof.
  intros Hinc i k a b Hik Ha Hb Hp.
  destruct (Nat.eq_dec i k) as [-> | Hne].
  - rewrite Ha in Hb. now injection Hb as ->.
  - assert (Hk : (k < List.length xs)%nat) by (apply nth_error_Some; congruence).
    apply at_nth_error in Ha, Hb. subst a b.
    eapply xle_xlt_trans; [| exact Hp]. apply Hinc. lia.
Qed.

(** [numpy.interp] on an increasing table of two nodes at least, for an
    abscissa inside the table: the ordinate of a node at the node, the chord
    between two neighbouring nodes between them, whatever the ordinates. *)
Lemma np_interp_cases (xs : list xreal) (x : xreal) :
  increasing_table xs -> (2 <= List.length xs)%nat -> is_nan x = false ->
  xlt (at_ xs (List.length xs - 1)) x = false -> xlt x (at_ xs 0) = false ->
  (exists j, (j < List.length xs)%nat /\ x = at_ xs j /\
             forall ys, np_interp xs ys x = at_ ys j) \/
  (exists j, (S j < List.length xs)%nat /\
             xlt (at_ xs j) x = true /\ xlt x (at_ xs (S j)) = true /\
             forall ys, np_interp xs ys x = chord xs ys j x).
Proof.
  intros Hinc Hn Hnan Hhi Hlo.
  assert (E1 : (List.length xs =? 1)%nat = false) by (apply Nat.eqb_neq; lia).
  destruct (searchsorted_by_spec (fun a => xle a x) xs (xle_monotone xs x Hinc))
    with (lt := xle) (v := x) as [Hr [Hbelow Habove]]; [reflexivity |].
  set (r := searchsorted_by xle xs x) in *.
  assert (Hnn : forall i, (i < List.length xs)%nat -> is_nan (at_ xs i) = false)
    by (intros i Hi; now apply increasing_not_nan).
  assert (H1 : (1 <= r)%nat).
  { destruct (Nat.le_gt_cases 1 r) as [H | H]; [exact H | exfalso].
    pose proof (Habove 0%nat (at_ xs 0) ltac:(lia) (nth_error_at xs 0 ltac:(lia))) as Hf.
    cbv beta in Hf. rewrite xle_total in Hf; auto; [discriminate | apply Hnn; lia]. }
  assert (Hj : xle (at_ xs (r - 1)) x = true).
  { apply (Hbelow (r - 1)%nat); [lia | apply nth_error_at; lia]. }
  destruct (r - 1 =? List.length xs - 1)%nat eqn:Elast.
  - left. exists (r - 1)%nat. apply Nat.eqb_eq in Elast.
    split; [lia |]. split.
    + destruct (xle_cases _ _ Hj) as [Hlt | Heq]; [| now symmetry].
      rewrite Elast in Hlt. congruence.
    + intros ys. unfold np_interp. rewrite E1, Hnan, Hhi, Hlo. fold r.
      now rewrite (proj2 (Nat.eqb_eq _ _) Elast).
  - destruct (xeq (at_ xs (r - 1)) x) eqn:Eeq.
    + left. exists (r - 1)%nat. apply Nat.eqb_neq in Elast.
      split; [lia |]. split; [symmetry; now apply xeq_eq |].
      intros ys. unfold np_interp. rewrite E1, Hnan, Hhi, Hlo. fold r.
      now rewrite (proj2 (Nat.eqb_neq _ _) Elast), Eeq.
    + right. exists (r - 1)%nat. apply Nat.eqb_neq in Elast.
      split; [lia |].
      assert (Hlt : xlt (at_ xs (r - 1)) x = true).
      { unfold xle in Hj. rewrite Eeq, orb_false_r in Hj. exact Hj. }
      split; [exact Hlt |]. split.
      * replace (S (r - 1)) with r by lia.
        destruct (xlt x (at_ xs r)) eqn:E; [reflexivity | exfalso].
        pose proof (Habove r (at_ xs r) ltac:(lia) (nth_error_at xs r ltac:(lia))) as Hf.
        cbv beta in Hf. rewrite xle_total in Hf; auto; [discriminate | apply Hnn; lia].
      * intros ys. unfold np_interp. rewrite E1, Hnan, Hhi, Hlo. fold r.
        now rewrite (proj2 (Nat.eqb_neq _ _) Elast), Eeq.
Qed.

(** The interpolant [scipy] builds of an increasing table. *)
Lemma interp1d_increasing (xs ys : list xreal) (below above : xreal) :
  increasing_table xs -> List.length xs = List.length ys -> xs <> [] ->
  interp1d xs ys below above =
  Ok (fun x_new =>
        if xlt (at_ xs (List.length xs - 1)) x_new then above
        else if xlt x_new (at_ xs 0) then below
        else np_interp xs ys x_new).
Proof.
  intros Hinc Hlen Hne. unfold interp1d.
  rewrite Hlen, Nat.eqb_refl.
  destruct (List.length ys =? 0)%nat eqn:E0.
  { apply Nat.eqb_eq in E0. rewrite <- Hlen in E0.
    destruct xs; [contradiction | discriminate]. }
  cbn [negb orb].
  rewrite (argsort_ascending sort_lt xs (increasing_ascending xs Hinc)).
  change (map (at_ xs)) with (map (fun i => nth i xs XNaN)).
  change (map (at_ ys)) with (map (fun i => nth i ys XNaN)).
  rewrite (map_nth_seq xs XNaN). rewrite Hlen, (map_nth_seq ys XNaN).
  rewrite <- Hlen. reflexivity.
Qed.


Lemma at_last (l : list xreal) : l <> [] -> last l XNaN = at_ l (List.length l - 1).
Proof.
  intros Hne. symmetry. apply at_nth_error. now apply nth_error_last.
Qed.

(** Lines 78-88 on an increasing table: the bin [k] holds the exponential
    of the interpolant at the logarithm of its frequency. *)
Lemma interpolate_bins_spec (freq_data : list Q) (noise_data : list xreal)
      (kmin length : Z) (delta_f : Q) :
  freq_data <> [] -> List.length noise_data = List.length freq_data ->
  (0 <= kmin)%Z -> (0 <= length)%Z ->
  increasing_table (map (fun f => np_log (of_Q f)) freq_data) ->
  exists s,
    interpolate_bins freq_data noise_data kmin length delta_f = Ok s /\
    Read.delta_f s = delta_f /\
    List.length (data s) = Z.to_nat length /\
    forall k : Z,
      (kmin <= k < length)%Z ->
      nth_error (data s) (Z.to_nat k) =
      Some (np_exp (psd_interp_of (map (fun f => np_log (of_Q f)) freq_data)
                                  (map np_log noise_data)
                                  (np_log (of_Q (inject_Z k * delta_f))))).
Proof.
  intros Hne Hlen Hk Hl Hinc. unfold interpolate_bins.
  assert (Hnn : noise_data <> [])
    by (destruct noise_data, freq_data; try discriminate; congruence).
  assert (Hsn : map np_log noise_data <> [])
    by (destruct noise_data; [contradiction | discriminate]).
  assert (Hs0 : py_index (map np_log noise_data) 0 = Ok (at_ (map np_log noise_data) 0)).
  { destruct noise_data; [contradiction |]. cbn [map]. now rewrite py_index_0. }
  rewrite Hs0. cbn [bind].
  rewrite (py_index_last (map np_log noise_data) XNaN Hsn). cbn [bind].
  rewrite interp1d_increasing; try assumption.
  2:{ now rewrite !length_map. }
  2:{ destruct freq_data; [contradiction | discriminate]. }
  cbn [bind]. unfold np_zeros.
  destruct (length <? 0)%Z eqn:El; [apply Z.ltb_lt in El; lia |]. cbn [bind].
  unfold np_assign, slice_bounds.
  rewrite repeat_length, !length_map, length_np_arange.
  rewrite (slice_pos_nonneg _ _ Hk).
  replace (Z.to_nat length - Nat.min (Z.to_nat kmin) (Z.to_nat length))%nat
    with (Z.to_nat (length - kmin)) by lia.
  rewrite Nat.eqb_refl. cbn [bind].
  eexists. split; [reflexivity |]. cbn [data Read.delta_f].
  split; [reflexivity |].
  assert (Hpre : List.length (firstn (Nat.min (Z.to_nat kmin) (Z.to_nat length))
                                     (repeat (XFin 0) (Z.to_nat length))) =
                 Nat.min (Z.to_nat kmin) (Z.to_nat length)).
  { rewrite length_firstn, repeat_length. lia. }
  split.
  { rewrite !length_app, Hpre, !length_map, length_np_arange, length_skipn,
      repeat_length. lia. }
  intros k Hkr.
  rewrite nth_error_app2 by (rewrite Hpre; lia).
  rewrite Hpre.
  replace (Z.to_nat k - Nat.min (Z.to_nat kmin) (Z.to_nat length))%nat
    with (Z.to_nat (k - kmin)) by lia.
  rewrite nth_error_app1
    by (rewrite !length_map, length_np_arange; lia).
  rewrite !map_map.
  rewrite (map_nth_error _ _ _
             (nth_error_np_arange kmin length (Z.to_nat (k - kmin)) ltac:(lia))).
  replace (kmin + Z.of_nat (Z.to_nat (k - kmin)))%Z with k by lia.
  unfold psd_interp_of. rewrite !length_map.
  rewrite (at_last _ Hsn), length_map. reflexivity.
Qed.


(** ** The chord between two nodes *)

Lemma Reqb_false (a b : R) : a <> b -> Reqb a b = false.
Proof. intros H. unfold Reqb. destruct (Req_dec_T a b); [contradiction | reflexivity]. Qed.

Lemma Reqb_true (a : R) : Reqb a a = true.
Proof. unfold Reqb. destruct (Req_dec_T a a); [reflexivity | contradiction]. Qed.

(** Between two finite abscissas the chord is the straight line through
    the two nodes. *)
Lemma chord_fin (xp fp : list xreal) (j : nat) (a b u w c : R) :
  at_ xp j = XFin a -> at_ xp (S j) = XFin b ->
  at_ fp j = XFin u -> at_ fp (S j) = XFin w -> (a < b)%R ->
  chord xp fp j (XFin c) = XFin ((w - u) / (b - a) * (c - a) + u).
Proof.
  intros Ha Hb Hu Hw Hab. unfold chord. rewrite Ha, Hb, Hu, Hw.
  cbn [xsub xopp xadd xdiv].
  rewrite Reqb_false by lra.
  cbn [xmul xadd is_nan]. reflexivity.
Qed.

(** From a first abscissa at minus infinity (the logarithm of the frequency
    zero) the chord is level, at the ordinate of the second node. *)
Lemma chord_ninf (xp fp : list xreal) (j : nat) (b u w c : R) :
  at_ xp j = XNInf -> at_ xp (S j) = XFin b ->
  at_ fp j = XFin u -> at_ fp (S j) = XFin w ->
  chord xp fp j (XFin c) = XFin (0 * (c + - b) + w).
Proof.
  intros Ha Hb Hu Hw. unfold chord. rewrite Ha, Hb, Hu, Hw.
  cbn [xsub xopp xadd xdiv xmul signed_inf].
  unfold signed_inf. rewrite Reqb_true. cbn [xadd is_nan andb].
  reflexivity.
Qed.






Lemma np_log_nonneg (q : Q) : 0 <= q -> log_value (np_log (of_Q q)).
Proof.
  intros H. unfold of_Q. destruct (Q2R_nonneg q H) as [Hpos | Hzero].
  - right. rewrite (np_log_pos _ Hpos). now eexists.
  - left. rewrite <- Hzero. apply np_log_zero.
Qed.

Lemma log_value_not_nan (a : xreal) : log_value a -> is_nan a = false.
Proof. intros [-> | [r ->]]; reflexivity. Qed.

(** The interpolant of lines 81-82 at a logarithm, on a table whose
    abscissas are logarithms in increasing order: the ordinate of a node
    (at a node, and outside the table), the chord between two real nodes, or
    the chord from a first node at minus infinity. *)
Lemma psd_interp_cases (xs : list xreal) (x : xreal) :
  increasing_table xs -> xs <> [] ->
  (forall i, (i < List.length xs)%nat -> log_value (at_ xs i)) ->
  log_value x ->
  (exists j, (j < List.length xs)%nat /\
             forall ys, List.length ys = List.length xs ->
                        psd_interp_of xs ys x = at_ ys j) \/
  (exists j a b c,
      (S j < List.length xs)%nat /\
      at_ xs j = XFin a /\ at_ xs (S j) = XFin b /\ x = XFin c /\
      (a < c < b)%R /\
      forall ys, psd_interp_of xs ys x = chord xs ys j x) \/
  (exists j b c,
      (S j < List.length xs)%nat /\
      at_ xs j = XNInf /\ at_ xs (S j) = XFin b /\ x = XFin c /\
      forall ys, psd_interp_of xs ys x = chord xs ys j x).
Proof.
  intros Hinc Hne Hxs Hx.
  assert (Hn : (0 < List.length xs)%nat) by (destruct xs; [contradiction | simpl; lia]).
  destruct (xlt (at_ xs (List.length xs - 1)) x) eqn:Ehi.
  { left. exists (List.length xs - 1)%nat. split; [lia |].
    intros ys Hlen. unfold psd_interp_of. now rewrite Ehi, Hlen. }
  destruct (xlt x (at_ xs 0)) eqn:Elo.
  { left. exists 0%nat. split; [lia |].
    intros ys Hlen. unfold psd_interp_of. now rewrite Ehi, Elo. }
  destruct (Nat.eq_dec (List.length xs) 1) as [H1 | H1].
  { left. exists 0%nat. split; [lia |].
    intros ys Hlen. unfold psd_interp_of, np_interp. rewrite Ehi, Elo, H1.
    cbn [Nat.eqb Nat.sub].
    destruct (xlt (at_ xs 0) x); reflexivity. }
  destruct (np_interp_cases xs x Hinc ltac:(lia) (log_value_not_nan x Hx) Ehi Elo)
    as [[j [Hj [_ Hnp]]] | [j [Hj [H1' [H2' Hnp]]]]].
  { left. exists j. split; [exact Hj |].
    intros ys _. unfold psd_interp_of. rewrite Ehi, Elo. apply Hnp. }
  right.
  assert (Hval : forall ys, psd_interp_of xs ys x = chord xs ys j x).
  { intros ys. unfold psd_interp_of. rewrite Ehi, Elo. apply Hnp. }
  destruct Hx as [-> | [c ->]].
  { destruct (at_ xs j); discriminate. }
  destruct (Hxs (S j) Hj) as [Hb | [b Hb]].
  { rewrite Hb in H2'. discriminate. }
  destruct (Hxs j ltac:(lia)) as [Ha | [a Ha]].
  - right. exists j, b, c. auto.
  - left. exists j, a, b, c. repeat split; auto.
    + rewrite Ha in H1'. cbn [xlt] in H1'. now apply Rltb_spec in H1'.
    + rewrite Hb in H2'. cbn [xlt] in H2'. now apply Rltb_spec in H2'.
Qed.


(** The interpolant of a table of real ordinates: real, between the least
    and the greatest ordinate, and shifted with the ordinates. *)
Lemma psd_interp_real (xs ys : list xreal) (x : xreal) (lo hi : R) :
  increasing_table xs -> List.length ys = List.length xs -> xs <> [] ->
  (forall i, (i < List.length xs)%nat -> log_value (at_ xs i)) ->
  (forall i, (i < List.length xs)%nat ->
             exists y, at_ ys i = XFin y /\ (lo <= y <= hi)%R) ->
  log_value x ->
  exists r, psd_interp_of xs ys x = XFin r /\ (lo <= r <= hi)%R /\
            forall (l : R) (ys' : list xreal),
              List.length ys' = List.length xs ->
              (forall i y, (i < List.length xs)%nat -> at_ ys i = XFin y ->
                           at_ ys' i = XFin (l + y)) ->
              psd_interp_of xs ys' x = XFin (l + r).
Proof.
  intros Hinc Hlen Hne Hxs Hys Hx.
  destruct (psd_interp_cases xs x Hinc Hne Hxs Hx)
    as [[j [Hj Hv]] | [[j [a [b [c [Hj [Ha [Hb [-> [Hacb Hv]]]]]]]]] |
                       [j [b [c [Hj [Ha [Hb [-> Hv]]]]]]]]].
  - destruct (Hys j Hj) as [y [Hy Hb]]. exists y.
    rewrite (Hv ys Hlen). split; [exact Hy |]. split; [exact Hb |].
    intros l ys' Hlen' Hshift. rewrite (Hv ys' Hlen'). now apply Hshift.
  - destruct (Hys j ltac:(lia)) as [u [Hu Hub]].
    destruct (Hys (S j) Hj) as [w [Hw Hwb]].
    assert (Hab : (a < b)%R) by lra.
    rewrite Hv, (chord_fin xs ys j a b u w c Ha Hb Hu Hw Hab).
    eexists. split; [reflexivity |].
    assert (Hth : ((w - u) / (b - a) * (c - a) + u =
                   (1 - (c - a) / (b - a)) * u + (c - a) / (b - a) * w)%R)
      by (field; lra).
    assert (Ht0 : (0 < (c - a) / (b - a))%R)
      by (apply Rdiv_lt_0_compat; lra).
    assert (Ht1 : ((c - a) / (b - a) < 1)%R).
    { apply (Rmult_lt_reg_r (b - a)); [lra |].
      unfold Rdiv. rewrite Rmult_assoc, Rinv_l by lra. lra. }
    split.
    + rewrite Hth. set (th := ((c - a) / (b - a))%R) in *. nra.
    + intros l ys' Hlen' Hshift. rewrite Hv.
      rewrite (chord_fin xs ys' j a b (l + u) (l + w) c Ha Hb
                 (Hshift j u ltac:(lia) Hu) (Hshift (S j) w Hj Hw) Hab).
      f_equal. field. lra.
  - destruct (Hys j ltac:(lia)) as [u [Hu Hub]].
    destruct (Hys (S j) Hj) as [w [Hw Hwb]].
    rewrite Hv, (chord_ninf xs ys j b u w c Ha Hb Hu Hw).
    eexists. split; [reflexivity |]. split; [lra |].
    intros l ys' Hlen' Hshift. rewrite Hv.
    rewrite (chord_ninf xs ys' j b (l + u) (l + w) c Ha Hb
               (Hshift j u ltac:(lia) Hu) (Hshift (S j) w Hj Hw)).
    f_equal. ring.
Qed.

(** ** What the resampler returns *)

(** On a valid input, once the trimming has returned: the call returns, and
    every bin from [kmin] on holds the exponential of the interpolant of the
    retained samples at the logarithm of its frequency. *)
Lemma from_numpy_arrays_bins (freq_data : list Q) (noise_data : list xreal)
      (length : Z) (delta_f low_freq_cutoff : Q)
      (kmin : Z) (freq' : list Q) (noise' : list xreal) :
  valid_input freq_data noise_data length delta_f ->
  trim freq_data noise_data delta_f low_freq_cutoff = Ok (kmin, freq', noise') ->
  exists log s,
    from_numpy_arrays freq_data noise_data length delta_f low_freq_cutoff =
    (log, Ok s) /\
    forall k : Z,
      (kmin <= k)%Z -> (Z.to_nat k < List.length (data s))%nat ->
      nth_error (data s) (Z.to_nat k) =
      Some (np_exp (psd_interp_of (map (fun f => np_log (of_Q f)) freq')
                                  (map np_log noise')
                                  (np_log (of_Q (inject_Z k * delta_f))))).
Proof.
  intros Hv Htrim. pose proof Hv as (Hne & Hs & Hnn & Hlen & Hl & Hd).
  destruct (trim_Ok _ _ _ _ _ _ _ Hd Hnn Hlen Htrim)
    as (f0 & t & j & Hfreq & Hle & Hk & Hk0 & Hj & Hf' & Hn').
  assert (Hne' : freq' <> []) by (rewrite Hf'; now apply skipn_nonempty).
  assert (Hlast : last freq' 0 = last freq_data 0)
    by (rewrite Hf'; now apply last_skipn).
  assert (Hpos : 0 <= last freq' 0)
    by (rewrite Hlast; now apply last_In_nonneg).
  assert (Hlen' : List.length noise' = List.length freq')
    by (rewrite Hf', Hn', !length_skipn; lia).
  assert (Hinc : increasing_table (map (fun f => np_log (of_Q f)) freq')).
  { rewrite Hf', <- skipn_map. apply increasing_skipn.
    now apply increasing_log_frequencies. }
  assert (Hrun : exists log length',
             adjust_length freq' length delta_f = Ok (log, length') /\
             (0 <= length')%Z).
  { destruct (adjust_length_spec freq' length delta_f Hne' Hd Hpos) as [Hshrink Hkeep].
    destruct (Qlt_le_dec (last freq' 0) (inject_Z (length - 1) * delta_f)) as [H | H].
    - destruct (Hshrink H) as [-> Hb]. eexists _, _. split; [reflexivity | lia].
    - rewrite (Hkeep H). eexists _, _. split; [reflexivity | lia]. }
  destruct Hrun as (log & length' & Hadj & Hl').
  destruct (interpolate_bins_spec freq' noise' kmin length' delta_f
              Hne' Hlen' Hk0 Hl' Hinc) as (s & Hs' & _ & Hdata & Hbins).
  exists log, s. split.
  { unfold from_numpy_arrays. now rewrite Htrim, Hadj, Hs'. }
  intros k Hk1 Hk2. apply Hbins. lia.
Qed.

(** ** The wrap-around of [data_start] *)

Lemma skipn_last {A : Type} (l : list A) (d : A) :
  l <> [] -> skipn (List.length l - 1) l = [last l d].
Proof.
  intros Hne. destruct (exists_last Hne) as [l' [a ->]].
  rewrite last_last, length_app. cbn [List.length].
  replace (List.length l' + 1 - 1)%nat with (List.length l' + 0)%nat by lia.
  rewrite skipn_app, Nat.add_0_r, skipn_all, Nat.sub_diag. reflexivity.
Qed.

Section Wrap.
Context {A : Type}.

(** When the first sample lies strictly below the cutoff and not below
    [flow], [searchsorted] returns 0, [data_start] is [-1] and the slices
    [[-1:]] keep the last sample only. *)
Lemma trim_wrap (freq_data : list Q) (noise_data : list A)
      (delta_f low_freq_cutoff f0 : Q) (t : list Q) :
  0 < delta_f -> StronglySorted Qlt freq_data ->
  Forall (fun f => 0 <= f) freq_data ->
  List.length noise_data = List.length freq_data ->
  freq_data = f0 :: t -> f0 < low_freq_cutoff ->
  let kmin := Qfloor (low_freq_cutoff / delta_f) in
  inject_Z kmin * delta_f <= f0 ->
  trim freq_data noise_data delta_f low_freq_cutoff =
  Ok (kmin, [last freq_data 0],
      skipn (List.length noise_data - 1) noise_data).
Proof.
  intros Hd Hs Hnn Hlen Hfreq Hlt kmin Hflow. subst freq_data.
  assert (Hfreq : f0 :: t = f0 :: t) by reflexivity.
  assert (Hne : f0 :: t <> []) by discriminate.
  assert (Hnoise : noise_data <> []).
  { intros ->. discriminate. }
  assert (Hnz : ~ delta_f == 0).
  { intros H. rewrite H in Hd. exact (Qlt_irrefl _ Hd). }
  assert (H0 : 0 <= low_freq_cutoff / delta_f).
  { apply Qdiv_nonneg; [| exact Hd].
    apply Qle_trans with f0; [| now apply Qlt_le_weak].
    now inversion Hnn. }
  assert (Hss : searchsorted (f0 :: t) (inject_Z kmin * delta_f) = 0%nat).
  { destruct (searchsorted_spec (f0 :: t) (inject_Z kmin * delta_f) Hs)
      as [_ [Hbelow _]].
    destruct (searchsorted (f0 :: t) (inject_Z kmin * delta_f)) as [| r];
      [reflexivity | exfalso].
    apply (Qlt_not_le _ _ (Hbelow 0%nat f0 ltac:(lia) eq_refl)).
    exact Hflow. }
  assert (Hne0 : Qeq_bool f0 low_freq_cutoff = false).
  { apply Qeq_bool_false. intros H. rewrite H in Hlt. exact (Qlt_irrefl _ Hlt). }
  unfold trim. rewrite py_index_0. cbn [bind].
  rewrite (proj2 (Qltb_ge _ _) (Qlt_le_weak _ _ Hlt)).
  rewrite py_div_nonzero by exact Hnz. cbn [bind].
  rewrite (py_int_floor _ H0). fold kmin.
  rewrite Hne0, Hss. change (Z.of_nat 0 - 1 + 1)%Z with 0%Z.
  rewrite py_index_0. cbn [bind]. rewrite Hne0.
  change (Z.of_nat 0 - 1)%Z with (-1)%Z.
  destruct (py_slice_from (f0 :: t) (-1) Hne ltac:(lia)) as [j [_ [-> ->]]].
  destruct (py_slice_from noise_data (-1) Hnoise ltac:(lia)) as [j' [_ [-> ->]]].
  cbn [Z.ltb Z.compare]. cbv iota.
  now rewrite (skipn_last (f0 :: t) 0 Hne).
Qed.


End Wrap.

(** The interpolant of a table of one node is level. *)
Lemma psd_interp_single (x0 y0 x : xreal) : psd_interp_of [x0] [y0] x = y0.
Proof.
  unfold psd_interp_of, np_interp. cbn [List.length Nat.sub Nat.eqb at_ nth].
  destruct (xlt x0 x); [reflexivity |].
  destruct (xlt x x0); reflexivity.
Qed.

(** The resampler on a wrapped trimming. *)
Lemma resampling_after_wrap (freq_data : list Q) (noise_data : list xreal)
        (length : Z) (delta_f low_freq_cutoff f0 : Q) (t : list Q) (v : R) :
  valid_input freq_data noise_data length delta_f ->
  freq_data = f0 :: t -> f0 < low_freq_cutoff ->
  let kmin := Qfloor (low_freq_cutoff / delta_f) in
  inject_Z kmin * delta_f <= f0 ->
  last noise_data XNaN = XFin v -> (0 <= v)%R ->
  exists log s,
    from_numpy_arrays freq_data noise_data length delta_f low_freq_cutoff =
    (log, Ok s) /\
    forall k : Z,
      (kmin <= k)%Z -> (Z.to_nat k < List.length (data s))%nat ->
      nth_error (data s) (Z.to_nat k) = Some (XFin v).
Proof.
  intros Hv Hfreq Hlt kmin Hflow Hlast Hv0.
  pose proof Hv as (Hne & Hs & Hnn & Hlen & Hl & Hd).
  pose proof (trim_wrap freq_data noise_data delta_f low_freq_cutoff f0 t
                Hd Hs Hnn Hlen Hfreq Hlt Hflow) as Htrim.
  fold kmin in Htrim.
  assert (Hnoise : noise_data <> []).
  { intros ->. rewrite Hfreq in Hlen. discriminate. }
  rewrite (skipn_last noise_data XNaN Hnoise), Hlast in Htrim.
  destruct (from_numpy_arrays_bins _ _ _ _ _ _ _ _ Hv Htrim)
    as (log & s & Hrun & Hbins).
  exists log, s. split; [exact Hrun |].
  intros k Hk1 Hk2. rewrite (Hbins k Hk1 Hk2). cbn [map].
  now rewrite psd_interp_single, np_exp_log.
Qed.


(** ** The values returned *)

Lemma positive_log (a : xreal) : positive_real a -> real_valued (np_log a).
Proof. intros [r [-> Hr]]. rewrite (np_log_pos r Hr). now eexists. Qed.

Lemma Forall_skipn {B : Type} (P : B -> Prop) (l : list B) (n : nat) :
  Forall P l -> Forall P (skipn n l).
Proof.
  intros H. rewrite Forall_forall in *. intros x Hx. apply H.
  rewrite <- (firstn_skipn n l). apply in_or_app. now right.
Qed.

Lemma at_map_Forall {B : Type} (P : B -> Prop) (Q' : xreal -> Prop)
      (f : B -> xreal) (l : list B) (i : nat) :
  (forall b, P b -> Q' (f b)) -> Forall P l -> (i < List.length l)%nat ->
  Q' (at_ (map f l) i).
Proof.
  intros Hf Hall Hi.
  destruct (nth_error l i) as [b |] eqn:E; [| apply nth_error_None in E; lia].
  rewrite (at_nth_error _ _ _ (map_nth_error f _ _ E)).
  apply Hf. rewrite Forall_forall in Hall. apply Hall. eapply nth_error_In; eauto.
Qed.

Lemma bin_frequency_nonneg (k : Z) (delta_f : Q) :
  (0 <= k)%Z -> 0 < delta_f -> 0 <= inject_Z k * delta_f.
Proof.
  intros Hk Hd. apply Qmult_le_0_compat; [| now apply Qlt_le_weak].
  change 0 with (inject_Z 0). now rewrite <- Zle_Qle.
Qed.


Lemma py_slice_map {B C : Type} (f : B -> C) (l : list B) (lo : Z) (hi : option Z) :
  py_slice (map f l) lo hi = map f (py_slice l lo hi).
Proof.
  unfold py_slice. rewrite length_map.
  destruct (slice_bounds (List.length l) lo hi) as [a room].
  now rewrite <- firstn_map, <- skipn_map.
Qed.

(** The trimming moves the noise values, it does not read them. *)
Lemma trim_map {B C : Type} (f : B -> C) (freq_data : list Q) (noise_data : list B)
      (delta_f low_freq_cutoff : Q) :
  trim freq_data (map f noise_data) delta_f low_freq_cutoff =
  match trim freq_data noise_data delta_f low_freq_cutoff with
  | Ok (kmin, freq', noise') => Ok (kmin, freq', map f noise')
  | Err e => Err e
  end.
Proof.
  unfold trim.
  destruct (py_index freq_data 0) as [f0 |]; [| reflexivity]. cbn [bind].
  destruct (Qltb low_freq_cutoff f0); [reflexivity |].
  destruct (py_div low_freq_cutoff delta_f) as [q |]; [| reflexivity]. cbn [bind].
  destruct (py_index freq_data _) as [f1 |]; [| reflexivity]. cbn [bind].
  now rewrite py_slice_map.
Qed.

(** The steps of the resampler after a trimming that has returned, on a
    valid input. *)
Lemma resampler_steps (freq_data : list Q) (noise_data : list xreal)
      (length : Z) (delta_f low_freq_cutoff : Q)
      (kmin : Z) (freq' : list Q) (noise' : list xreal) :
  valid_input freq_data noise_data length delta_f ->
  trim freq_data noise_data delta_f low_freq_cutoff = Ok (kmin, freq', noise') ->
  kmin = Qfloor (low_freq_cutoff / delta_f) /\ (0 <= kmin)%Z /\
  freq' <> [] /\ List.length noise' = List.length freq' /\
  Forall (fun f => 0 <= f) freq' /\
  increasing_table (map (fun f => np_log (of_Q f)) freq') /\
  (exists j, noise' = skipn j noise_data) /\
  exists log length',
    adjust_length freq' length delta_f = Ok (log, length') /\ (0 <= length')%Z.
Proof.
  intros Hv Htrim. pose proof Hv as (Hne & Hs & Hnn & Hlen & Hl & Hd).
  destruct (trim_Ok _ _ _ _ _ _ _ Hd Hnn Hlen Htrim)
    as (f0 & t & j & Hfreq & Hle & Hk & Hk0 & Hj & Hf' & Hn').
  assert (Hne' : freq' <> []) by (rewrite Hf'; now apply skipn_nonempty).
  assert (Hlast : last freq' 0 = last freq_data 0)
    by (rewrite Hf'; now apply last_skipn).
  assert (Hpos : 0 <= last freq' 0)
    by (rewrite Hlast; now apply last_In_nonneg).
  split; [exact Hk |]. split; [exact Hk0 |]. split; [exact Hne' |].
  split; [rewrite Hf', Hn', !length_skipn; lia |].
  split; [rewrite Hf'; now apply Forall_skipn |].
  split.
  { rewrite Hf', <- skipn_map. apply increasing_skipn.
    now apply increasing_log_frequencies. }
  split; [now exists j |].
  destruct (adjust_length_spec freq' length delta_f Hne' Hd Hpos) as [Hshrink Hkeep].
  destruct (Qlt_le_dec (last freq' 0) (inject_Z (length - 1) * delta_f)) as [H | H].
  - destruct (Hshrink H) as [-> Hb]. eexists _, _. split; [reflexivity | lia].
  - rewrite (Hkeep H). eexists _, _. split; [reflexivity | lia].
Qed.





Lemma real_bounds (ys : list xreal) (n : nat) :
  (forall i, (i < n)%nat -> real_valued (at_ ys i)) ->
  exists lo hi : R,
    forall i, (i < n)%nat -> exists y, at_ ys i = XFin y /\ (lo <= y <= hi)%R.
Proof.
  induction n as [| n IH]; intros H.
  - exists 0%R, 0%R. intros i Hi. lia.
  - destruct IH as [lo [hi Hb]]; [intros i Hi; apply H; lia |].
    destruct (H n ltac:(lia)) as [y Hy].
    exists (Rmin lo y), (Rmax hi y). intros i Hi.
    destruct (Nat.eq_dec i n) as [-> | Hne].
    + exists y. split; [exact Hy |].
      split; [apply Rmin_r | apply Rmax_r].
    + destruct (Hb i ltac:(lia)) as [z [Hz Hzb]]. exists z.
      split; [exact Hz |].
      pose proof (Rmin_l lo y). pose proof (Rmax_l hi y). lra.
Qed.

Lemma nth_error_data (s : FrequencySeries xreal) (k : nat) (x : xreal) :
  nth_error (data s) k = Some x -> (k < List.length (data s))%nat.
Proof. intros H. apply nth_error_Some. congruence. Qed.

(** X20.  The resampler is homogeneous in the noise: on a valid input with
    positive noise values, multiplying every noise value by [c > 0]
    multiplies every bin from [kmin] on of the series returned by [c], and
    leaves the warning and the length as they are. *)
Theorem resampling_scales_with_noise
        (freq_data : list Q) (noise_data : list xreal)
        (length : Z) (delta_f low_freq_cutoff : Q) (c : R)
        (log : list log_record) (s : FrequencySeries xreal) :
  valid_input freq_data noise_data length delta_f ->
  Forall positive_real noise_data -> (0 < c)%R ->
  from_numpy_arrays freq_data noise_data length delta_f low_freq_cutoff =
  (log, Ok s) ->
  exists s',
    from_numpy_arrays freq_data (map (xmul (XFin c)) noise_data)
                      length delta_f low_freq_cutoff = (log, Ok s') /\
    List.length (data s') = List.length (data s) /\
    forall (k : Z) (x : xreal),
      (Qfloor (low_freq_cutoff / delta_f) <= k)%Z ->
      nth_error (data s) (Z.to_nat k) = Some x ->
      nth_error (data s') (Z.to_nat k) = Some (xmul (XFin c) x).
Proof.
  intros Hv Hpos Hc Hrun.
  pose proof Hv as (Hne & Hs & Hnn & Hlen & Hl & Hd).
  destruct (trim freq_data noise_data delta_f low_freq_cutoff)
    as [[[kmin freq'] noise'] | e] eqn:Htrim.
  2:{ unfold from_numpy_arrays in Hrun. rewrite Htrim in Hrun. discriminate. }
  destruct (resampler_steps _ _ _ _ _ _ _ _ Hv Htrim)
    as (Hkmin & Hk0 & Hne' & Hlen' & Hnn' & Hinc & [j Hn'] &
        lg & length' & Hadj & Hl').
  set (scaled := map (xmul (XFin c)) noise').
  assert (Hlens : List.length scaled = List.length freq')
    by (subst scaled; now rewrite length_map).
  destruct (interpolate_bins_spec freq' noise' kmin length' delta_f
              Hne' Hlen' Hk0 Hl' Hinc) as (s0 & Hs0 & _ & Hd0 & Hb0).
  destruct (interpolate_bins_spec freq' scaled kmin length' delta_f
              Hne' Hlens Hk0 Hl' Hinc) as (s' & Hs' & _ & Hd' & Hb').
  unfold from_numpy_arrays in Hrun. rewrite Htrim, Hadj, Hs0 in Hrun.
  injection Hrun as <- <-.
  exists s'. split.
  { unfold from_numpy_arrays. rewrite trim_map, Htrim, Hadj. fold scaled.
    now rewrite Hs'. }
  split; [now rewrite Hd0, Hd' |].
  intros k x Hk Hx.
  pose proof (nth_error_data _ _ _ Hx) as Hkl.
  assert (Hkr : (kmin <= k < length')%Z) by lia.
  rewrite (Hb0 k Hkr) in Hx. rewrite (Hb' k Hkr).
  match type of Hx with Some ?y = Some _ => assert (Hxy : x = y) by congruence end.
  subst x. clear Hx. f_equal.
  set (xs := map (fun f => np_log (of_Q f)) freq') in *.
  set (X := np_log (of_Q (inject_Z k * delta_f))).
  assert (Hpos' : Forall positive_real noise') by (rewrite Hn'; now apply Forall_skipn).
  assert (Hreal : forall i, (i < List.length xs)%nat ->
                            real_valued (at_ (map np_log noise') i)).
  { intros i Hi. subst xs. rewrite length_map in Hi.
    apply (at_map_Forall positive_real real_valued); auto; [apply positive_log | lia]. }
  destruct (real_bounds _ _ Hreal) as [lo [hi Hbounds]].
  destruct (psd_interp_real xs (map np_log noise') X lo hi)
    as [r [Hr [_ Hshift]]]; auto.
  - subst xs. now rewrite !length_map.
  - subst xs. intros H. apply map_eq_nil in H. contradiction.
  - intros i Hi. subst xs. rewrite length_map in Hi.
    apply (at_map_Forall (fun f => 0 <= f) log_value); auto.
    intros b Hb. now apply np_log_nonneg.
  - subst X. apply np_log_nonneg. apply bin_frequency_nonneg; [lia | exact Hd].
  - rewrite Hr. rewrite (Hshift (ln c) (map np_log scaled)).
    + cbn [np_exp xmul]. f_equal. rewrite exp_plus, exp_ln by exact Hc. reflexivity.
    + subst xs scaled. now rewrite !length_map.
    + intros i y Hi Hy. subst xs scaled. rewrite length_map in Hi.
      destruct (nth_error noise' i) as [v |] eqn:Ev;
        [| apply nth_error_None in Ev; lia].
      rewrite Forall_forall in Hpos'.
      destruct (Hpos' v (nth_error_In _ _ Ev)) as [rv [-> Hrv]].
      rewrite (at_nth_error _ _ _ (map_nth_error np_log _ _ Ev)) in Hy.
      rewrite (np_log_pos rv Hrv) in Hy. injection Hy as <-.
      rewrite (at_nth_error _ _ _
                 (map_nth_error np_log _ _
                    (map_nth_error (xmul (XFin c)) _ _ Ev))).
      cbn [xmul]. rewrite np_log_pos by (apply Rmult_lt_0_compat; assumption).
      f_equal. apply ln_mult; assumption.
Qed.






(** ** Bins on the samples *)



(** ** PSDs read from XML files *)

Import Files.

Lemma length_xml_frequencies (n : nat) (d : Q) :
  List.length (xml_frequencies n d) = n.
Proof. unfold xml_frequencies. rewrite length_map, length_np_arange. lia. Qed.

Lemma nth_error_xml_frequencies (n : nat) (d : Q) (i : nat) :
  (i < n)%nat ->
  nth_error (xml_frequencies n d) i = Some (inject_Z (Z.of_nat i) * d).
Proof.
  intros Hi. unfold xml_frequencies.
  rewrite (map_nth_error _ _ _ (nth_error_np_arange 0 (Z.of_nat n) i ltac:(lia))).
  reflexivity.
Qed.

Lemma StronglySorted_of_nth_error (l : list Q) :
  (forall i j x y, (i < j)%nat -> nth_error l i = Some x ->
                   nth_error l j = Some y -> x < y) ->
  StronglySorted Qlt l.
Proof.
  induction l as [| a l IH]; intros H; constructor.
  - apply IH. intros i j x y Hij Hi Hj. apply (H (S i) (S j)); auto. lia.
  - apply Forall_forall. intros y Hy. apply In_nth_error in Hy.
    destruct Hy as [j Hj]. apply (H 0%nat (S j)); auto. lia.
Qed.

Lemma xml_frequencies_sorted (n : nat) (d : Q) :
  0 < d -> StronglySorted Qlt (xml_frequencies n d).
Proof.
  intros Hd. apply StronglySorted_of_nth_error. intros i j x y Hij Hi Hj.
  assert (Hjn : (j < n)%nat).
  { rewrite <- (length_xml_frequencies n d). apply nth_error_Some. congruence. }
  rewrite nth_error_xml_frequencies in Hi, Hj by lia.
  injection Hi as <-. injection Hj as <-.
  apply Qmult_lt_compat_r; [exact Hd |]. rewrite <- Zlt_Qlt. lia.
Qed.

Lemma xml_frequencies_nonneg (n : nat) (d : Q) :
  0 < d -> Forall (fun f => 0 <= f) (xml_frequencies n d).
Proof.
  intros Hd. apply Forall_forall. intros x Hx. apply In_nth_error in Hx.
  destruct Hx as [i Hi].
  assert (Hin : (i < n)%nat).
  { rewrite <- (length_xml_frequencies n d). apply nth_error_Some. congruence. }
  rewrite nth_error_xml_frequencies in Hi by lia. injection Hi as <-.
  apply bin_frequency_nonneg; [lia | exact Hd].
Qed.

Lemma xml_frequencies_head (n : nat) (d : Q) :
  (0 < n)%nat -> exists t, xml_frequencies n d = inject_Z 0 * d :: t.
Proof.
  intros Hn. pose proof (nth_error_xml_frequencies n d 0 Hn) as H.
  destruct (xml_frequencies n d) as [| a t]; [discriminate |].
  injection H as ->. now exists t.
Qed.


(** The frequencies of an XML PSD with its samples make a valid input. *)
Lemma xml_valid_input (psd : REAL8FrequencySeries) (length : Z) (delta_f : Q) :
  data_data psd <> [] -> 0 < deltaF psd -> (1 <= length)%Z -> 0 < delta_f ->
  valid_input (xml_frequencies (List.length (data_data psd)) (deltaF psd))
              (data_data psd) length delta_f.
Proof.
  intros Hne HdF Hl Hd. unfold valid_input.
  split.
  { intros H. apply (f_equal (@List.length Q)) in H.
    rewrite length_xml_frequencies in H. destruct (data_data psd); [contradiction | discriminate]. }
  split; [now apply xml_frequencies_sorted |].
  split; [now apply xml_frequencies_nonneg |].
  split; [now rewrite length_xml_frequencies |].
  split; assumption.
Qed.

Lemma from_xml_selected (filename : xml_file) (length : Z)
      (delta_f low_freq_cutoff : Q) (ifo_string : option String.string)
      (root_name : String.string) (psd : REAL8FrequencySeries) :
  select_psd (read_psd_xmldoc filename root_name) ifo_string = Returned psd ->
  from_xml filename length delta_f low_freq_cutoff ifo_string root_name =
  (let r := from_numpy_arrays
              (xml_frequencies (List.length (data_data psd)) (deltaF psd))
              (data_data psd) length delta_f low_freq_cutoff in
   (fst r, of_result (snd r))).
Proof. intros H. unfold from_xml. now rewrite H. Qed.

Lemma Qzero_mult (d : Q) : inject_Z 0 * d == 0.
Proof. apply Qmult_0_l. Qed.


(** X9.  Below the resolution of the output the XML PSD is lost: with a
    cutoff strictly between 0 and [delta_f], [data_start] wraps around and
    every bin of the series returned holds the last sample of the file. *)
Theorem from_xml_cutoff_below_resolution (filename : xml_file) (length : Z)
        (delta_f low_freq_cutoff : Q) (ifo_string : option String.string)
        (root_name : String.string) (psd : REAL8FrequencySeries) (v : R) :
  select_psd (read_psd_xmldoc filename root_name) ifo_string = Returned psd ->
  0 < deltaF psd -> 0 < delta_f -> (1 <= length)%Z ->
  0 < low_freq_cutoff -> low_freq_cutoff < delta_f ->
  last (data_data psd) XNaN = XFin v -> (0 <= v)%R ->
  exists log s,
    from_xml filename length delta_f low_freq_cutoff ifo_string root_name =
    (log, Returned s) /\
    forall (k : nat) (x : xreal), nth_error (data s) k = Some x -> x = XFin v.
Proof.
  intros Hsel HdF Hd Hl Hc0 Hc1 Hlast Hv0.
  set (n := List.length (data_data psd)) in *.
  assert (Hne : data_data psd <> []).
  { intros H. rewrite H in Hlast. discriminate. }
  assert (Hn : (0 < n)%nat).
  { subst n. destruct (data_data psd); [contradiction | simpl; lia]. }
  pose proof (xml_valid_input psd length delta_f Hne HdF Hl Hd) as Hv.
  fold n in Hv.
  destruct (xml_frequencies_head n (deltaF psd) Hn) as [t Hfreq].
  assert (Hkmin : Qfloor (low_freq_cutoff / delta_f) = 0%Z).
  { assert (H0 : (Qfloor 0 <= Qfloor (low_freq_cutoff / delta_f))%Z).
    { apply Qfloor_resp_le. apply Qdiv_nonneg; [now apply Qlt_le_weak | exact Hd]. }
    assert (H1 : inject_Z (Qfloor (low_freq_cutoff / delta_f)) < inject_Z 1).
    { eapply Qle_lt_trans; [apply Qfloor_le |].
      apply Qlt_shift_div_r; [exact Hd |]. now rewrite Qmult_1_l. }
    rewrite <- Zlt_Qlt in H1. change (Qfloor 0) with 0%Z in H0. lia. }
  destruct (resampling_after_wrap (xml_frequencies n (deltaF psd)) (data_data psd)
              length delta_f low_freq_cutoff (inject_Z 0 * deltaF psd) t v Hv Hfreq)
    as (log & s & Hrun & Hbins).
  - rewrite Qzero_mult. exact Hc0.
  - rewrite Hkmin, !Qzero_mult. apply Qle_refl.
  - exact Hlast.
  - exact Hv0.
  - exists log, s. split.
    + rewrite (from_xml_selected _ _ _ _ _ _ psd Hsel). fold n.
      now rewrite Hrun.
    + intros k x Hx. rewrite Hkmin in Hbins.
      assert (Hkl : (k < List.length (data s))%nat)
        by (apply nth_error_Some; congruence).
      specialize (Hbins (Z.of_nat k) ltac:(lia)).
      rewrite Nat2Z.id in Hbins. rewrite (Hbins Hkl) in Hx. congruence.
Qed.

(** The outcomes of the resampler on a valid input. *)
Lemma from_numpy_arrays_outcomes (freq_data : list Q) (noise_data : list xreal)
      (length : Z) (delta_f low_freq_cutoff f0 : Q) (t : list Q) :
  valid_input freq_data noise_data length delta_f ->
  freq_data = f0 :: t ->
  (exists s, snd (from_numpy_arrays freq_data noise_data length delta_f
                    low_freq_cutoff) = Ok s) \/
  (snd (from_numpy_arrays freq_data noise_data length delta_f low_freq_cutoff) =
   Err (ValueError (LowestFrequencyAboveCutoff low_freq_cutoff)) /\
   low_freq_cutoff < f0) \/
  (snd (from_numpy_arrays freq_data noise_data length delta_f low_freq_cutoff) =
   Err IndexError /\ f0 <= low_freq_cutoff).
Proof.
  intros Hv Hfreq. pose proof Hv as (Hne & Hs & Hnn & Hlen & Hl & Hd).
  destruct (trim freq_data noise_data delta_f low_freq_cutoff)
    as [[[kmin freq'] noise'] | e] eqn:Htrim.
  - left. destruct (from_numpy_arrays_returns _ _ _ _ _ _ _ _ Hv Htrim)
      as (s & Hrun & _). exists s. now rewrite Hrun.
  - right. unfold from_numpy_arrays. rewrite Htrim. cbn [snd].
    destruct (trim_Err _ _ _ _ _ _ _ Hd Hfreq Htrim) as [[-> H] | [-> H]]; auto.
Qed.

(** X10.  The frequencies of an XML PSD start at zero: [from_xml] raises a
    [ValueError] of the resampler exactly for the negative cutoffs, and it
    is the one of line 54. *)
Theorem from_xml_rejects_negative_cutoff (filename : xml_file) (length : Z)
        (delta_f low_freq_cutoff : Q) (ifo_string : option String.string)
        (root_name : String.string) (psd : REAL8FrequencySeries) :
  select_psd (read_psd_xmldoc filename root_name) ifo_string = Returned psd ->
  data_data psd <> [] -> 0 < deltaF psd -> 0 < delta_f -> (1 <= length)%Z ->
  (low_freq_cutoff < 0 <->
   snd (from_xml filename length delta_f low_freq_cutoff ifo_string root_name) =
   Raises (Raised (ValueError (LowestFrequencyAboveCutoff low_freq_cutoff)))) /\
  (forall m,
      snd (from_xml filename length delta_f low_freq_cutoff ifo_string root_name) =
      Raises (Raised (ValueError m)) -> low_freq_cutoff < 0).
Proof.
  intros Hsel Hne HdF Hd Hl.
  set (n := List.length (data_data psd)) in *.
  assert (Hn : (0 < n)%nat).
  { subst n. destruct (data_data psd); [contradiction | simpl; lia]. }
  pose proof (xml_valid_input psd length delta_f Hne HdF Hl Hd) as Hv.
  fold n in Hv.
  destruct (xml_frequencies_head n (deltaF psd) Hn) as [t Hfreq].
  rewrite (from_xml_selected _ _ _ _ _ _ psd Hsel). fold n. cbn [snd].
  destruct (from_numpy_arrays_outcomes _ _ length delta_f low_freq_cutoff _ _ Hv Hfreq)
    as [[s Hs] | [[-> H] | [-> H]]]; [rewrite Hs |..]; cbn [of_result].
  - split; [split |]; [| discriminate | discriminate].
    intros Hlt. exfalso.
    pose proof (trim_guard (xml_frequencies n (deltaF psd)) (data_data psd)
                  delta_f low_freq_cutoff _ t Hfreq) as Hg.
    rewrite Qzero_mult in Hg. specialize (Hg Hlt).
    unfold from_numpy_arrays in Hs. rewrite Hg in Hs. discriminate.
  - rewrite Qzero_mult in H. split; [split; auto |]. auto.
  - rewrite Qzero_mult in H. split; [split |]; [| discriminate | discriminate].
    intros Hlt. exfalso. exact (Qlt_not_le _ _ Hlt H).
Qed.

Lemma dict_item_cases {V : Type} (d : dict V) (k : String.string) :
  (exists v, dict_item d k = Returned v /\ In (k, v) d) \/
  (dict_item d k = Raises (UnknownIfo k) /\ ~ In k (dict_keys d)).
Proof.
  unfold dict_item.
  destruct (find (fun kv => String.eqb (fst kv) k) d) as [[k' v] |] eqn:E.
  - left. exists v. split; [reflexivity |].
    apply find_some in E. destruct E as [Hin Heq]. cbn [fst] in Heq.
    apply String.eqb_eq in Heq. now subst k'.
  - right. split; [reflexivity |]. intros Hin.
    apply in_map_iff in Hin. destruct Hin as [[k' v] [Hk Hin]]. cbn [fst] in Hk.
    subst k'. pose proof (find_none _ _ E _ Hin) as H. cbn [fst] in H.
    rewrite String.eqb_refl in H. discriminate.
Qed.

Lemma select_psd_single (k : String.string) (psd : REAL8FrequencySeries) :
  select_psd [(k, psd)] None = Returned psd /\
  select_psd [(k, psd)] (Some k) = Returned psd.
Proof.
  unfold select_psd, dict_item. cbn. now rewrite String.eqb_refl.
Qed.


(** X11.  Which PSD of the file [from_xml] reads: the one of the given ifo
    string, or the only one; the call raises the [ValueError] of lines
    186-188 exactly when no ifo string is given and the file does not hold
    exactly one PSD, and a [KeyError] exactly when the ifo string given is
    not in the file. *)
Theorem from_xml_selection (filename : xml_file) (length : Z)
        (delta_f low_freq_cutoff : Q) (ifo_string : option String.string)
        (root_name : String.string) :
  (snd (from_xml filename length delta_f low_freq_cutoff ifo_string root_name) =
   Raises NotExactlyOnePSD <->
   ifo_string = None /\
   List.length (read_psd_xmldoc filename root_name) <> 1%nat) /\
  (forall ifo,
      snd (from_xml filename length delta_f low_freq_cutoff ifo_string root_name) =
      Raises (UnknownIfo ifo) <->
      ifo_string = Some ifo /\
      ~ In ifo (dict_keys (read_psd_xmldoc filename root_name))) /\
  (forall k psd,
      read_psd_xmldoc filename root_name = [(k, psd)] ->
      from_xml filename length delta_f low_freq_cutoff None root_name =
      from_xml filename length delta_f low_freq_cutoff (Some k) root_name).
Proof.
  unfold from_xml. set (psd_dict := read_psd_xmldoc filename root_name).
  assert (Hres : forall (r : list log_record * result (FrequencySeries xreal)) e,
             (e = NotExactlyOnePSD \/ exists i, e = UnknownIfo i) ->
             snd (fst r, of_result (snd r)) <> Raises e).
  { intros [log [s | x]] e [-> | [i ->]]; discriminate. }
  split; [| split].
  - unfold select_psd. destruct ifo_string as [ifo |].
    + split; [| intros [H _]; discriminate].
      destruct (dict_item_cases psd_dict ifo) as [[v [-> _]] | [-> _]];
        [| discriminate].
      intros H. exfalso. revert H. apply Hres. now left.
    + unfold dict_keys. rewrite length_map.
      destruct (List.length psd_dict =? 1)%nat eqn:E.
      * apply Nat.eqb_eq in E. split; [| intros [_ H]; contradiction].
        destruct psd_dict as [| [k v] [| kv d]]; try discriminate.
        cbn [map fst]. rewrite py_index_0.
        unfold dict_item. cbn [find fst snd]. rewrite String.eqb_refl.
        intros H. exfalso. revert H. apply Hres. now left.
      * apply Nat.eqb_neq in E. cbn [snd]. split; auto.
  - intros ifo. unfold select_psd. destruct ifo_string as [i |].
    + destruct (dict_item_cases psd_dict i) as [[v [-> Hin]] | [-> Hnot]].
      * split.
        -- intros H. exfalso. revert H. apply Hres. right. now eexists.
        -- intros [[= ->] Hnot]. exfalso. apply Hnot.
           apply in_map_iff. now exists (ifo, v).
      * cbn [snd]. split; [intros [= ->]; auto | intros [[= ->] _]; reflexivity].
    + split; [| intros [H _]; discriminate].
      unfold dict_keys. rewrite length_map.
      destruct (List.length psd_dict =? 1)%nat eqn:E; [| discriminate].
      apply Nat.eqb_eq in E.
      destruct psd_dict as [| [k v] [| kv d]]; try discriminate.
      cbn [map fst]. rewrite py_index_0.
      unfold dict_item. cbn [find fst snd]. rewrite String.eqb_refl.
      intros H. exfalso. revert H. apply Hres. right. now eexists.
  - intros k psd ->.
    destruct (select_psd_single k psd) as [-> ->]. reflexivity.
Qed.

(** ** PSDs read from text files *)


Lemma clean_iff (c : float64) :
  clean c <-> negative c || negb (isfinite c) = false.
Proof.
  split.
  - intros [q [-> Hq]]. cbn [negative isfinite negb]. rewrite orb_false_r.
    now apply Qltb_ge.
  - destruct c as [| | | q]; cbn [negative isfinite negb]; try discriminate.
    rewrite orb_false_r. intros H. apply Qltb_ge in H. now exists q.
Qed.

Lemma existsb_concat {B : Type} (p : B -> bool) (l : list (list B)) :
  existsb p (concat l) = existsb (existsb p) l.
Proof.
  induction l as [| a l IH]; [reflexivity |].
  cbn [concat existsb]. now rewrite existsb_app, IH.
Qed.

Lemma rectangular_forallb (first : list float64) (rest : list (list float64)) :
  rectangular (first :: rest) ->
  forallb (fun l => (List.length l =? List.length first)%nat) rest = true.
Proof.
  intros H. apply forallb_forall. intros l Hl. apply Nat.eqb_eq.
  apply (H l). now right.
Qed.

(** What [numpy.loadtxt] makes of a rectangular table: an array with the
    numbers of the table. *)
Lemma np_loadtxt_rectangular (filename : txt_file) :
  rectangular (lines filename) ->
  exists a, np_loadtxt filename = Returned a /\
            forall p, np_any p a = existsb (existsb p) (lines filename).
Proof.
  intros Hrect. unfold np_loadtxt.
  destruct (lines filename) as [| first rest]; [now eexists |].
  rewrite (rectangular_forallb first rest Hrect).
  destruct first as [| c [| c' first]], rest as [| r rest];
    eexists; (split; [reflexivity |]); intros p; cbn [np_any existsb];
    rewrite ?orb_false_r; try reflexivity.
  rewrite existsb_concat. cbn [existsb]. now rewrite orb_false_r.
Qed.

Lemma existsb_invalid (table : list (list float64)) :
  existsb (existsb negative) table ||
  existsb (existsb (fun c => negb (isfinite c))) table = true <->
  exists l c, In l table /\ In c l /\ ~ clean c.
Proof.
  rewrite orb_true_iff, !existsb_exists. split.
  - intros [[l [Hl H]] | [l [Hl H]]]; apply existsb_exists in H;
      destruct H as [c [Hc H]]; exists l, c; (split; [exact Hl |]);
      (split; [exact Hc |]); rewrite clean_iff; rewrite H;
      [discriminate | rewrite orb_true_r; discriminate].
  - intros [l [c [Hl [Hc H]]]]. rewrite clean_iff in H.
    apply not_false_is_true in H. apply orb_true_iff in H.
    destruct H as [H | H]; [left | right]; exists l; (split; [exact Hl |]);
      apply existsb_exists; exists c; auto.
Qed.

(** X12.  On a file whose lines hold equally many numbers, [from_txt]
    raises the [ValueError] of line 128 exactly when one of the numbers,
    in whatever column, is negative, infinite or not-a-number. *)
Theorem from_txt_rejects_invalid_data (filename : txt_file) (length : Z)
        (delta_f low_freq_cutoff : Q) (is_asd_file : bool) :
  rectangular (lines filename) ->
  (snd (from_txt filename length delta_f low_freq_cutoff is_asd_file) =
   Raises (InvalidData (path filename)) <->
   exists l c, In l (lines filename) /\ In c l /\ ~ clean c).
Proof.
  intros Hrect. unfold from_txt.
  destruct (np_loadtxt_rectangular filename Hrect) as [a [-> Hany]].
  rewrite !Hany, <- existsb_invalid.
  destruct (existsb (existsb negative) (lines filename) ||
            existsb (existsb (fun c => negb (isfinite c))) (lines filename)).
  - cbn [snd]. split; reflexivity.
  - split; [| discriminate].
    destruct (column a 0); [| discriminate].
    destruct (column a 1); [| discriminate].
    cbn [snd].
    match goal with |- of_result ?r = _ -> _ => destruct r end; discriminate.
Qed.

Lemma all_clean_no_invalid (table : list (list float64)) :
  Forall (Forall clean) table ->
  existsb (existsb negative) table ||
  existsb (existsb (fun c => negb (isfinite c))) table = false.
Proof.
  intros H. apply not_true_is_false. rewrite existsb_invalid.
  intros [l [c [Hl [Hc Hn]]]]. apply Hn.
  rewrite Forall_forall in H. specialize (H l Hl).
  rewrite Forall_forall in H. now apply H.
Qed.

(** X13.  [from_txt] needs two lines and two columns: on a file of valid
    numbers with fewer than two lines, or fewer than two numbers on its
    lines, the array that [numpy.loadtxt] returns has fewer than two
    dimensions, or no second column, and the call raises an [IndexError]. *)
Theorem from_txt_needs_two_lines_and_columns (filename : txt_file) (length : Z)
        (delta_f low_freq_cutoff : Q) (is_asd_file : bool) :
  rectangular (lines filename) -> Forall (Forall clean) (lines filename) ->
  (List.length (lines filename) < 2)%nat \/
  (List.length (hd [] (lines filename)) < 2)%nat ->
  from_txt filename length delta_f low_freq_cutoff is_asd_file =
  ([], Raises (Raised IndexError)).
Proof.
  intros Hrect Hclean Hshape. unfold from_txt.
  destruct (np_loadtxt_rectangular filename Hrect) as [a [Ha Hany]].
  rewrite Ha, !Hany, (all_clean_no_invalid _ Hclean).
  revert Ha. unfold np_loadtxt.
  destruct (lines filename) as [| first rest] eqn:El.
  { intros [= <-]. reflexivity. }
  rewrite (rectangular_forallb first rest Hrect).
  destruct first as [| c [| c' first]], rest as [| r rest];
    intros [= <-]; try reflexivity;
    cbn [List.length hd] in Hshape; lia.
Qed.






(** ** The selector: shape and provenance of what it returns *)

Section SelectorShape.
Context {A : Type} (zero inf : A) {trunc_method : Type}.
Context (interpolate : FrequencySeries A -> Q -> result (FrequencySeries A)).
Context (inverse_spectrum_truncation :
           FrequencySeries A -> Z -> option Q -> option trunc_method ->
           result (FrequencySeries A)).
Implicit Types (self : PrecomputedTimeVaryingPSD A trunc_method).

Lemma reconcile_length_shape self (p q : FrequencySeries A) :
  reconcile_length zero inf self p = Ok q ->
  Read.delta_f q = Read.delta_f p /\
  match TimeVarying.length self with
  | Some len => Z.of_nat (List.length (data q)) = len
  | None => q = p
  end.
Proof.
  destruct (TimeVarying.length self) as [len |] eqn:Hlen.
  - destruct (Z.eq_dec len (Z.of_nat (List.length (data p)))) as [Heq | Hne].
    + unfold reconcile_length. rewrite Hlen.
      rewrite (proj2 (Z.eqb_eq _ _) Heq). cbn [negb]. intros [= <-]. auto.
    + destruct (Z.lt_ge_cases len 0) as [Hneg | Hpos].
      * unfold reconcile_length, np_zeros. rewrite Hlen.
        rewrite (proj2 (Z.eqb_neq _ _) Hne), (proj2 (Z.ltb_lt _ _) Hneg).
        discriminate.
      * rewrite (reconcile_length_differs zero inf self p len Hlen Hpos Hne).
        intros [= <-]. cbn [data Read.delta_f]. split; [reflexivity |].
        destruct (Z.of_nat (List.length (data p)) <? len)%Z eqn:E.
        -- apply Z.ltb_lt in E. rewrite length_app, repeat_length. lia.
        -- apply Z.ltb_ge in E. rewrite length_firstn. lia.
  - unfold reconcile_length. rewrite Hlen. intros [= <-]. auto.
Qed.

Lemma mask_low_frequencies_shape self (p q : FrequencySeries A) :
  mask_low_frequencies inf self p = Ok q ->
  Read.delta_f q = Read.delta_f p /\
  List.length (data q) = List.length (data p).
Proof.
  unfold mask_low_frequencies.
  destruct (f_low self) as [fl |]; [| intros [= <-]; auto].
  destruct (Qltb fl (file_f_low self)); [| intros [= <-]; auto].
  destruct (py_div (file_f_low self) (Read.delta_f p)); [| discriminate].
  cbn [bind]. intros [= <-]. cbn [data Read.delta_f].
  split; [reflexivity | apply length_np_fill].
Qed.

(** X15.  The shape of what [get_psd] returns: the resolution of the series
    it has loaded (and resampled), and the configured length, or the length
    of the loaded series when no length is configured. *)
Theorem get_psd_shape self (index : nat) (delta_f : option Q)
        (psd s : FrequencySeries A) :
  load_at_resolution interpolate self index delta_f = Ok psd ->
  get_psd zero inf interpolate self index delta_f = Ok s ->
  Read.delta_f s = Read.delta_f psd /\
  Z.of_nat (List.length (data s)) =
  match TimeVarying.length self with
  | Some len => len
  | None => Z.of_nat (List.length (data psd))
  end.
Proof.
  intros Hload. unfold get_psd. rewrite Hload. cbn [bind].
  destruct (reconcile_length zero inf self psd) as [q |] eqn:Hrec; [| discriminate].
  cbn [bind]. intros Hmask.
  apply reconcile_length_shape in Hrec. destruct Hrec as [Hdf Hlen].
  apply mask_low_frequencies_shape in Hmask. destruct Hmask as [Hdf' Hlen'].
  split; [congruence |]. rewrite Hlen'.
  destruct (TimeVarying.length self); [exact Hlen | now subst q].
Qed.

Lemma py_index_nat_Ok {B : Type} (l : list B) (i : nat) (x : B) :
  py_index l (Z.of_nat i) = Ok x -> nth_error l i = Some x.
Proof.
  rewrite py_index_nat. destruct (nth_error l i); [now intros [= ->] | discriminate].
Qed.

(** X16.  The series the selector returns is that of a stored PSD whose
    segment intersects the segment asked for: it is what [get_psd] returns
    for an index of the store, after the optional truncation, and the
    segment between the start and the end time of that index intersects
    [inp_seg]. *)
Theorem selected_psd_intersects_segment self (inp_seg : segment)
        (delta_f : option Q) (p : FrequencySeries A) :
  assosiate_psd_to_inspiral_segment zero inf interpolate
    inverse_spectrum_truncation self inp_seg delta_f = Ok p ->
  exists (i : nat) (s e : Q) (q : FrequencySeries A),
    nth_error (start_times self) i = Some s /\
    nth_error (end_times self) i = Some e /\
    intersects inp_seg (mk_segment s e) = true /\
    get_psd zero inf interpolate self i delta_f = Ok q /\
    truncate_inverse inverse_spectrum_truncation self q = Ok p.
Proof.
  unfold assosiate_psd_to_inspiral_segment.
  destruct (_ || _); [discriminate |].
  destruct (candidates self inp_seg) as [sidx |]; [| discriminate]. cbn [bind].
  destruct (best_of zero inf interpolate self inp_seg delta_f sidx) as [q |] eqn:Hbest;
    [| discriminate].
  cbn [bind]. intros Htrunc.
  revert Hbest. unfold best_of.
  destruct (py_index sidx 0) as [i0 |]; [| discriminate]. cbn [bind].
  destruct (py_index (start_times self) (Z.of_nat i0)) as [s0 |] eqn:Hs0;
    [| discriminate]. cbn [bind].
  destruct (py_index (end_times self) (Z.of_nat i0)) as [e0 |] eqn:He0;
    [| discriminate]. cbn [bind].
  destruct (py_index sidx 1) as [i1 |]; [| discriminate]. cbn [bind].
  destruct (py_index (start_times self) (Z.of_nat i1)) as [s1 |] eqn:Hs1;
    [| discriminate]. cbn [bind].
  destruct (py_index (end_times self) (Z.of_nat i1)) as [e1 |] eqn:He1;
    [| discriminate]. cbn [bind].
  apply py_index_nat_Ok in Hs0, He0, Hs1, He1.
  destruct (intersects inp_seg (mk_segment s0 e0)) eqn:I0.
  - destruct (seg_and (mk_segment s0 e0) inp_seg) as [ov0 |]; [| discriminate].
    cbn [bind].
    destruct (get_psd zero inf interpolate self i0 delta_f) as [p0 |] eqn:G0;
      [| discriminate].
    cbn [bind].
    destruct (intersects inp_seg (mk_segment s1 e1)) eqn:I1.
    + destruct (seg_and (mk_segment s1 e1) inp_seg) as [ov1 |]; [| discriminate].
      cbn [bind].
      destruct (Qltb (seg_abs ov0) (seg_abs ov1)).
      * destruct (get_psd zero inf interpolate self i1 delta_f) as [p1 |] eqn:G1;
          [| discriminate].
        cbn [bind]. intros [= <-]. exists i1, s1, e1, p1. auto.
      * cbn [bind]. intros [= <-]. exists i0, s0, e0, p0. auto.
    + cbn [bind]. intros [= <-]. exists i0, s0, e0, p0. auto.
  - cbn [bind].
    destruct (intersects inp_seg (mk_segment s1 e1)) eqn:I1.
    + destruct (seg_and (mk_segment s1 e1) inp_seg) as [ov1 |]; [| discriminate].
      cbn [bind].
      destruct (Qltb 0 (seg_abs ov1)).
      * destruct (get_psd zero inf interpolate self i1 delta_f) as [p1 |] eqn:G1;
          [| discriminate].
        cbn [bind]. intros [= <-]. exists i1, s1, e1, p1. auto.
      * cbn [bind]. discriminate.
    + cbn [bind]. discriminate.
Qed.

(** X17.  A segment that intersects the segment of a stored PSD is inside
    the range of the store: on a selector built by [__init__] the check of
    lines 223-227 lets it pass, and the call goes on to the candidates. *)
Theorem overlapping_segment_passes_range_check
        (opt : options A trunc_method) (len : option Z) (df sr : Q) self
        (inp_seg : segment) (delta_f : option Q) (i : nat) (s e : Q) :
  init opt len df sr = Ok self ->
  nth_error (start_time (precomputed_psd_file opt)) i = Some s ->
  nth_error (end_time (precomputed_psd_file opt)) i = Some e ->
  s <= e -> intersects inp_seg (s, e) = true ->
  assosiate_psd_to_inspiral_segment zero inf interpolate
    inverse_spectrum_truncation self inp_seg delta_f =
  (sidx <- candidates self inp_seg ;;
   best_psd <- best_of zero inf interpolate self inp_seg delta_f sidx ;;
   truncate_inverse inverse_spectrum_truncation self best_psd).
Proof.
  unfold init. intros Hinit Hs He Hse Hint.
  destruct (np_min _) as [b |] eqn:Hb; [| discriminate].
  destruct (np_max _) as [m |] eqn:Hm; [| discriminate].
  cbn [bind] in Hinit. injection Hinit as <-.
  apply np_min_spec in Hb. apply np_max_spec in Hm.
  destruct Hb as [_ Hb]. destruct Hm as [_ Hm].
  rewrite Forall_forall in Hb, Hm.
  specialize (Hb s (nth_error_In _ _ Hs)). specialize (Hm e (nth_error_In _ _ He)).
  unfold intersects in Hint. cbn [fst snd] in Hint.
  apply andb_true_iff in Hint. destruct Hint as [H1 H2].
  apply Qltb_lt in H1, H2.
  unfold assosiate_psd_to_inspiral_segment. cbn [begin_ end_].
  assert (E1 : Qltb m (fst inp_seg) = false).
  { apply Qltb_ge. apply Qlt_le_weak. eapply Qlt_le_trans; eauto. }
  assert (E2 : Qltb (snd inp_seg) b = false).
  { apply Qltb_ge. apply Qlt_le_weak. eapply Qle_lt_trans; eauto. }
  now rewrite E1, E2.
Qed.

End SelectorShape.

(** ** The two candidates *)

Import Permutation.

Lemma insert_key_perm {B : Type} (lt : B -> B -> bool) (i : nat) (k : B)
      (l : list (nat * B)) :
  Permutation (insert_key lt i k l) ((i, k) :: l).
Proof.
  induction l as [| [j kj] t IH]; [reflexivity |].
  cbn [insert_key]. destruct (lt kj k); [| reflexivity].
  rewrite IH. apply perm_swap.
Qed.

Lemma sort_keys_perm {B : Type} (lt : B -> B -> bool) (l : list (nat * B)) :
  Permutation (sort_keys lt l) l.
Proof.
  induction l as [| [i k] t IH]; [reflexivity |].
  cbn [sort_keys]. rewrite insert_key_perm. now constructor.
Qed.


Lemma insert_key_in_order (i : nat) (k : Q) (l : list (nat * Q)) :
  keys_in_order l -> keys_in_order (insert_key Qltb i k l).
Proof.
  unfold keys_in_order. induction 1 as [| [j kj] t Hs IH Hall].
  - repeat constructor.
  - cbn [insert_key]. destruct (Qltb kj k) eqn:E.
    + apply Qltb_lt in E. constructor; [exact IH |].
      rewrite (insert_key_perm Qltb i k t). constructor; [| exact Hall].
      cbn [snd]. now apply Qlt_le_weak.
    + apply Qltb_ge in E. constructor; [now constructor |].
      constructor; [exact E |].
      eapply Forall_impl; [| exact Hall]. intros [j' k'] H. cbn [snd] in *.
      eapply Qle_trans; eauto.
Qed.

Lemma sort_keys_in_order (l : list (nat * Q)) : keys_in_order (sort_keys Qltb l).
Proof.
  induction l as [| [i k] t IH]; [constructor |].
  cbn [sort_keys]. now apply insert_key_in_order.
Qed.

Lemma In_combine_seq {B : Type} (l : list B) (s i : nat) (k : B) :
  In (i, k) (combine (seq s (List.length l)) l) <->
  (s <= i)%nat /\ nth_error l (i - s) = Some k.
Proof.
  revert s. induction l as [| b l IH]; intros s; cbn [List.length seq combine].
  - split; [contradiction | intros [_ H]; destruct (i - s)%nat; discriminate].
  - cbn [In]. rewrite IH. split.
    + intros [[= <- <-] | [Hle H]].
      * rewrite Nat.sub_diag. auto.
      * split; [lia |]. replace (i - s)%nat with (S (i - S s)) by lia. exact H.
    + intros [Hle H]. destruct (Nat.eq_dec s i) as [-> | Hne].
      * left. rewrite Nat.sub_diag in H. now injection H as ->.
      * right. split; [lia |].
        replace (i - s)%nat with (S (i - S s)) in H by lia. exact H.
Qed.

(** What [numpy.argpartition(a, 2)[:2]] holds on three elements at least:
    two different positions of [a], and no element at another position is
    smaller than the elements there. *)
Lemma argpartition_two (a : list Q) :
  (3 <= List.length a)%nat ->
  exists i0 i1 k0 k1,
    argsort Qltb a = i0 :: i1 :: skipn 2 (argsort Qltb a) /\
    i0 <> i1 /\ nth_error a i0 = Some k0 /\ nth_error a i1 = Some k1 /\
    forall j k, j <> i0 -> j <> i1 -> nth_error a j = Some k ->
                k0 <= k /\ k1 <= k.
Proof.
  intros Hn. unfold argsort.
  set (pairs := combine (seq 0 (List.length a)) a).
  pose proof (sort_keys_perm Qltb pairs) as Hperm.
  pose proof (sort_keys_in_order pairs) as Hord.
  assert (Hlen : List.length (sort_keys Qltb pairs) = List.length a).
  { rewrite (Permutation_length Hperm). subst pairs.
    rewrite length_combine, length_seq. lia. }
  assert (Hnodup : NoDup (map fst (sort_keys Qltb pairs))).
  { eapply Permutation_NoDup; [apply Permutation_map; symmetry; exact Hperm |].
    subst pairs. rewrite map_fst_combine by apply length_seq. apply seq_NoDup. }
  revert Hperm Hord Hlen Hnodup.
  destruct (sort_keys Qltb pairs) as [| [i0 k0] [| [i1 k1] rest]];
    intros Hperm Hord Hlen Hnodup;
    try (cbn [List.length] in Hlen; lia).
  exists i0, i1, k0, k1. cbn [map fst skipn].
  split; [reflexivity |].
  assert (Hin : forall i k, In (i, k) ((i0, k0) :: (i1, k1) :: rest) <->
                            nth_error a i = Some k).
  { intros i k. split; intros H.
    - eapply Permutation_in in H; [| exact Hperm].
      subst pairs. apply In_combine_seq in H. destruct H as [_ H].
      now rewrite Nat.sub_0_r in H.
    - eapply Permutation_in; [symmetry; exact Hperm |].
      subst pairs. apply In_combine_seq. rewrite Nat.sub_0_r.
      split; [lia | exact H]. }
  cbn [map fst] in Hnodup.
  split.
  { intros ->. inversion Hnodup as [| ? ? Hnot _]. apply Hnot. now left. }
  split; [apply Hin; now left |].
  split; [apply Hin; right; now left |].
  intros j k Hj0 Hj1 Hk. apply Hin in Hk.
  destruct Hk as [[= -> _] | [[= -> _] | Hk]]; [contradiction | contradiction |].
  unfold keys_in_order in Hord.
  inversion Hord as [| ? ? Hord1 Hall0]. subst.
  inversion Hord1 as [| ? ? _ Hall1]. subst.
  rewrite Forall_forall in Hall0, Hall1.
  split.
  - apply (Hall0 (j, k)). right. exact Hk.
  - apply (Hall1 (j, k)). exact Hk.
Qed.

Section Candidates.
Context {A trunc_method : Type}.
Implicit Types (self : PrecomputedTimeVaryingPSD A trunc_method).

(** X18.  On a store of three PSDs at least the candidates are two
    different PSDs of the store, and no other PSD of the store starts
    nearer to the start of the segment than either of them. *)
Theorem candidates_are_two_nearest self (inp_seg : segment) :
  (3 <= List.length (start_times self))%nat ->
  exists (i0 i1 : nat) (t0 t1 : Q),
    candidates self inp_seg = Ok [i0; i1] /\ i0 <> i1 /\
    nth_error (start_times self) i0 = Some t0 /\
    nth_error (start_times self) i1 = Some t1 /\
    forall j t, j <> i0 -> j <> i1 -> nth_error (start_times self) j = Some t ->
                Qabs (t0 - fst inp_seg) <= Qabs (t - fst inp_seg) /\
                Qabs (t1 - fst inp_seg) <= Qabs (t - fst inp_seg).
Proof.
  intros Hn. unfold candidates, argpartition.
  set (dist := fun t => Qabs (t - fst inp_seg)).
  rewrite length_map.
  destruct (List.length (start_times self) <=? 2)%nat eqn:E;
    [apply Nat.leb_le in E; lia |].
  cbn [bind].
  destruct (argpartition_two (map dist (start_times self)))
    as (i0 & i1 & k0 & k1 & Hsort & Hne & H0 & H1 & Hall);
    [now rewrite length_map |].
  rewrite Hsort. rewrite py_slice_to by lia.
  change (Z.to_nat 2) with 2%nat. cbn [firstn].
  rewrite nth_error_map in H0, H1.
  destruct (nth_error (start_times self) i0) as [t0 |] eqn:E0; [| discriminate].
  destruct (nth_error (start_times self) i1) as [t1 |] eqn:E1; [| discriminate].
  cbn [option_map] in H0, H1. injection H0 as <-. injection H1 as <-.
  exists i0, i1, t0, t1.
  split; [reflexivity |]. split; [exact Hne |].
  split; [exact E0 |]. split; [exact E1 |].
  intros j t Hj0 Hj1 Ht.
  apply (Hall j (dist t) Hj0 Hj1). now rewrite nth_error_map, Ht.
Qed.

End Candidates.

(** ** Instances of the further properties *)

Import Examples FileExamples.



(** The noise values of the example are positive. *)
Lemma grid_noise_positive : Forall positive_real grid_noise.
Proof.
  unfold grid_noise.
  repeat (apply Forall_cons; [eexists; split; [reflexivity | lra] |]).
  apply Forall_nil.
Qed.





(** X9: an instance, the cutoff 0.5 Hz on the same file. *)
Lemma from_xml_cutoff_below_resolution_witness :
  exists log s,
    from_xml h1_xml 4 1 (1 # 2) None psd_root = (log, Returned s) /\
    forall (k : nat) (x : xreal), nth_error (data s) k = Some x -> x = XFin 4.
Proof.
  apply (from_xml_cutoff_below_resolution h1_xml 4 1 (1 # 2) None psd_root
           h1_psd 4).
  - reflexivity.
  - reflexivity.
  - reflexivity.
  - lia.
  - reflexivity.
  - reflexivity.
  - reflexivity.
  - lra.
Defined.

(** X10: an instance, the cutoff -1 Hz. *)
Lemma from_xml_rejects_negative_cutoff_witness :
  (-1 # 1 < 0 <->
   snd (from_xml h1_xml 4 1 (-1 # 1) None psd_root) =
   Raises (Raised (ValueError (LowestFrequencyAboveCutoff (-1 # 1))))) /\
  (forall m,
      snd (from_xml h1_xml 4 1 (-1 # 1) None psd_root) =
      Raises (Raised (ValueError m)) -> -1 # 1 < 0).
Proof.
  apply (from_xml_rejects_negative_cutoff h1_xml 4 1 (-1 # 1) None psd_root h1_psd).
  - reflexivity.
  - discriminate.
  - reflexivity.
  - reflexivity.
  - lia.
Defined.

(** The example file has one PSD: it is read without an ifo string, and
    asking for another detector is a [KeyError]. *)
Lemma xml_selection_example :
  select_psd (read_psd_xmldoc h1_xml psd_root) None = Returned h1_psd /\
  select_psd (read_psd_xmldoc h1_xml psd_root) (Some H1) = Returned h1_psd /\
  from_xml h1_xml 4 1 2 (Some psd_root) psd_root = ([], Raises (UnknownIfo psd_root)).
Proof. repeat split. Qed.

(** The example files hold as many numbers on every line, and the ASD file
    and the file of one line hold valid numbers only. *)
Lemma nan_txt_rectangular : rectangular (lines nan_txt).
Proof. intros l [<- | [<- | []]]; reflexivity. Qed.


Lemma one_line_txt_rectangular : rectangular (lines one_line_txt).
Proof. intros l [<- | []]; reflexivity. Qed.

Lemma clean_FFin (q : Q) : 0 <= q -> clean (FFin q).
Proof. intros H. now exists q. Qed.


Lemma one_line_txt_clean : Forall (Forall clean) (lines one_line_txt).
Proof. repeat constructor; apply clean_FFin; discriminate. Qed.

(** X12: an instance, a file with a not-a-number in its second column. *)
Lemma from_txt_rejects_invalid_data_witness :
  (snd (from_txt nan_txt 4 1 10 true) = Raises (InvalidData (path nan_txt)) <->
   exists l c, In l (lines nan_txt) /\ In c l /\ ~ clean c) /\
  from_txt nan_txt 4 1 10 true = ([], Raises (InvalidData (path nan_txt))).
Proof.
  split; [| reflexivity].
  exact (from_txt_rejects_invalid_data nan_txt 4 1 10 true nan_txt_rectangular).
Defined.

(** X13: an instance, a file of one line. *)
Lemma from_txt_needs_two_lines_and_columns_witness :
  from_txt one_line_txt 4 1 10 true = ([], Raises (Raised IndexError)).
Proof.
  apply (from_txt_needs_two_lines_and_columns one_line_txt 4 1 10 true).
  - exact one_line_txt_rectangular.
  - exact one_line_txt_clean.
  - left. simpl. lia.
Defined.


(** X15: an instance, the first series of the store brought to six bins. *)
Lemma get_psd_shape_witness :
  Read.delta_f (series [XPInf; XPInf; XFin 3; XFin 4; XPInf; XPInf]) =
  Read.delta_f (series [XFin 1; XFin 2; XFin 3; XFin 4]) /\
  Z.of_nat (List.length (data (series [XPInf; XPInf; XFin 3; XFin 4; XPInf; XPInf]))) =
  match TimeVarying.length (selector_on three_psds (Some 1) (Some 6%Z) 0 300) with
  | Some len => len
  | None => Z.of_nat (List.length (data (series [XFin 1; XFin 2; XFin 3; XFin 4])))
  end.
Proof.
  apply (get_psd_shape (XFin 0) XPInf keep_resolution
           (selector_on three_psds (Some 1) (Some 6%Z) 0 300) 0 None
           (series [XFin 1; XFin 2; XFin 3; XFin 4])
           (series [XPInf; XPInf; XFin 3; XFin 4; XPInf; XPInf]));
    reflexivity.
Defined.

(** X16: an instance, the segment [50, 150] on the store of three. *)
Lemma selected_psd_intersects_segment_witness :
  exists (i : nat) (s e : Q) (q : FrequencySeries xreal),
    nth_error (start_times (selector_on three_psds (Some 1) (Some 6%Z) 0 300)) i =
    Some s /\
    nth_error (end_times (selector_on three_psds (Some 1) (Some 6%Z) 0 300)) i =
    Some e /\
    intersects (50, 150) (mk_segment s e) = true /\
    get_psd (XFin 0) XPInf keep_resolution
      (selector_on three_psds (Some 1) (Some 6%Z) 0 300) i None = Ok q /\
    truncate_inverse keep_spectrum
      (selector_on three_psds (Some 1) (Some 6%Z) 0 300) q =
    Ok (series [XPInf; XPInf; XFin 3; XFin 4; XPInf; XPInf]).
Proof.
  apply (selected_psd_intersects_segment (XFin 0) XPInf keep_resolution
           keep_spectrum (selector_on three_psds (Some 1) (Some 6%Z) 0 300)
           (50, 150) None).
  reflexivity.
Defined.

(** X17: an instance, the same segment and the first PSD of the store. *)
Lemma overlapping_segment_passes_range_check_witness :
  run_selector (selector_on three_psds (Some 1) (Some 6%Z) 0 300) (50, 150) =
  (sidx <- candidates (selector_on three_psds (Some 1) (Some 6%Z) 0 300) (50, 150) ;;
   best_psd <- best_of (XFin 0) XPInf keep_resolution
                 (selector_on three_psds (Some 1) (Some 6%Z) 0 300)
                 (50, 150) None sidx ;;
   truncate_inverse keep_spectrum
     (selector_on three_psds (Some 1) (Some 6%Z) 0 300) best_psd).
Proof.
  apply (overlapping_segment_passes_range_check (XFin 0) XPInf keep_resolution
           keep_spectrum (options_of three_psds (Some 1)) (Some 6%Z) 1 4096
           (selector_on three_psds (Some 1) (Some 6%Z) 0 300) (50, 150) None
           0 0 100).
  - reflexivity.
  - reflexivity.
  - reflexivity.
  - discriminate.
  - reflexivity.
Defined.

(** X18: an instance, the candidates for a segment that starts at 50. *)
Lemma candidates_are_two_nearest_witness :
  exists (i0 i1 : nat) (t0 t1 : Q),
    candidates (selector_on three_psds (Some 1) (Some 6%Z) 0 300) (50, 150) =
    Ok [i0; i1] /\ i0 <> i1 /\
    nth_error (start_times (selector_on three_psds (Some 1) (Some 6%Z) 0 300)) i0 =
    Some t0 /\
    nth_error (start_times (selector_on three_psds (Some 1) (Some 6%Z) 0 300)) i1 =
    Some t1 /\
    forall j t, j <> i0 -> j <> i1 ->
                nth_error (start_times (selector_on three_psds (Some 1) (Some 6%Z) 0 300)) j =
                Some t ->
                Qabs (t0 - fst (50, 150)) <= Qabs (t - fst (50, 150)) /\
                Qabs (t1 - fst (50, 150)) <= Qabs (t - fst (50, 150)).
Proof.
  apply (candidates_are_two_nearest
           (selector_on three_psds (Some 1) (Some 6%Z) 0 300) (50, 150)).
  simpl. lia.
Defined.

(** The candidates of that instance: the PSDs that start at 0 and at 100,
    both 50 away from the start of the segment. *)
Lemma candidates_example :
  candidates (selector_on three_psds (Some 1) (Some 6%Z) 0 300) (50, 150) =
  Ok [0%nat; 1%nat].
Proof. reflexivity. Qed.



(** X20: an instance, the noise of the example doubled. *)
Lemma resampling_scales_with_noise_witness :
  exists log s s',
    from_numpy_arrays grid_freq grid_noise 14 1 10 = (log, Ok s) /\
    from_numpy_arrays grid_freq (map (xmul (XFin 2)) grid_noise) 14 1 10 =
    (log, Ok s') /\
    List.length (data s') = List.length (data s) /\
    forall (k : Z) (x : xreal),
      (Qfloor (10 / 1) <= k)%Z ->
      nth_error (data s) (Z.to_nat k) = Some x ->
      nth_error (data s') (Z.to_nat k) = Some (xmul (XFin 2) x).
Proof.
  destruct (from_numpy_arrays_returns grid_freq grid_noise 14 1 10
              10%Z [10; 11; 12; 13] grid_noise (grid_valid 14 ltac:(lia)) eq_refl)
    as (s & Hrun & _).
  destruct (resampling_scales_with_noise grid_freq grid_noise 14 1 10 2 _ s
              (grid_valid 14 ltac:(lia)) grid_noise_positive ltac:(lra) Hrun)
    as (s' & Hrun' & Hlen & Hbins).
  eexists. exists s, s'. split; [exact Hrun |]. split; [exact Hrun' |].
  split; [exact Hlen | exact Hbins].
Defined.
